(** * The command dispatch layer of Antigravity-Manager (src/utils/request.ts)

    A shallow embedding of [request], the single exported operation of the
    dispatch layer, together with the JavaScript built-ins it calls.

    Conventions of the embedding.
    - A JavaScript string is a [string] whose characters are the code units
      of the string; the embedding covers the code units below 256.
    - A plain object is the list of its own enumerable properties in
      enumeration order (the order of [Object.keys]).
    - The argument bag is an object of a heap and is passed by reference, so
      that the copy [request] makes of it and the caller's object are told
      apart.
    - Numbers are kept abstract behind the class [JSNumber].
    - [JSON.parse], [fetch], [Date.now], the session storage and the native
      [invoke] belong to the host: the first four are taken as given, the
      storage is part of the world. *)

From Stdlib Require Import ZArith NArith Ascii String List Lia.
From Stdlib Require Import Numbers.DecimalString.
From stdpp Require Import gmap strings list fin_maps.

Local Open Scope char_scope.
Local Open Scope stdpp_scope.

(** ** Strings *)

Module JSString.

(** [s.startsWith(p)] *)
Fixpoint startsWith (s p : string) {struct p} : bool :=
  match p, s with
  | EmptyString, _ => true
  | String a p', String b s' => if Ascii.eqb a b then startsWith s' p' else false
  | String _ _, EmptyString => false
  end.

(** [s.slice(n)] for [0 <= n] *)
Fixpoint slice (n : nat) (s : string) : string :=
  match n, s with
  | O, _ => s
  | S n', String _ s' => slice n' s'
  | S _, EmptyString => EmptyString
  end.

(** [s.includes(p)] *)
Fixpoint includes (s p : string) : bool :=
  if startsWith s p then true
  else match s with
       | EmptyString => false
       | String _ s' => includes s' p
       end.

(** The text before and the text after the first occurrence of [p] in [s]
    ([s.indexOf(p)] and the two substrings it delimits). *)
Fixpoint split_first (s p : string) : option (string * string) :=
  if startsWith s p then Some (EmptyString, slice (String.length p) s)
  else match s with
       | EmptyString => None
       | String c s' =>
           match split_first s' p with
           | Some (before, after) => Some (String c before, after)
           | None => None
           end
       end.

(** The abstract operation GetSubstitution of ECMA-262 for a string pattern:
    there are no captures, so of the dollar forms only [$$], [$&], [$`] and
    [$'] are expanded and every other character is copied. *)
Fixpoint GetSubstitution (matched before after replacement : string) : string :=
  match replacement with
  | EmptyString => EmptyString
  | String c r =>
      if Ascii.eqb c "$" then
        match r with
        | EmptyString => String c EmptyString
        | String d r' =>
            if Ascii.eqb d "$" then String "$" (GetSubstitution matched before after r')
            else if Ascii.eqb d "&" then matched +:+ GetSubstitution matched before after r'
            else if Ascii.eqb d "`" then before +:+ GetSubstitution matched before after r'
            else if Ascii.eqb d "'" then after +:+ GetSubstitution matched before after r'
            else String c (GetSubstitution matched before after r)
        end
      else String c (GetSubstitution matched before after r)
  end.

(** [s.replace(pattern, replacement)] with a string pattern: only the first
    occurrence is replaced. *)
Definition replace (s pattern replacement : string) : string :=
  match split_first s pattern with
  | None => s
  | Some (before, after) =>
      before +:+ GetSubstitution pattern before after replacement +:+ after
  end.

(** [l.join(sep)] on an array of strings *)
Fixpoint join (sep : string) (l : list string) : string :=
  match l with
  | [] => EmptyString
  | x :: rest =>
      match rest with
      | [] => x
      | _ :: _ => x +:+ sep +:+ join sep rest
      end
  end.

(** The double quote character, as a one-character string. *)
Definition dquote : string := String "034" EmptyString.

End JSString.

Import JSString.

(** ** Percent-encoding *)

Module URI.

Definition is_digit (n : N) : bool := ((48 <=? n) && (n <=? 57))%N.
Definition is_upper (n : N) : bool := ((65 <=? n) && (n <=? 90))%N.
Definition is_lower (n : N) : bool := ((97 <=? n) && (n <=? 122))%N.
Definition is_alnum (n : N) : bool := is_digit n || is_upper n || is_lower n.

Definition mem_char (c : ascii) (s : string) : bool :=
  existsb (Ascii.eqb c) (list_ascii_of_string s).

(** uriUnreserved of ECMA-262: the characters [encodeURIComponent] keeps. *)
Definition uriUnreserved (c : ascii) : bool :=
  is_alnum (N_of_ascii c) || mem_char c "-_.!~*'()".

Definition hex_digit (n : N) : ascii :=
  ascii_of_N (if (n <? 10)%N then 48 + n else 55 + n).

(** [%XX] with upper-case hexadecimal digits *)
Definition percent (byte : N) : string :=
  String "%" (String (hex_digit (byte / 16)) (String (hex_digit (byte mod 16)) EmptyString)).

(** The UTF-8 encoding of a code unit below 256. *)
Definition utf8 (c : ascii) : list N :=
  let n := N_of_ascii c in
  if (n <? 128)%N then [n] else [(192 + n / 64)%N; (128 + n mod 64)%N].

Definition percent_all (bytes : list N) : string :=
  fold_right (fun b acc => percent b +:+ acc) EmptyString bytes.

(** What [encodeURIComponent] writes for one code unit. *)
Definition encode_unit (c : ascii) : string :=
  if uriUnreserved c then String c EmptyString else percent_all (utf8 c).

(** [encodeURIComponent(s)] *)
Fixpoint encodeURIComponent (s : string) : string :=
  match s with
  | EmptyString => EmptyString
  | String c s' => encode_unit c +:+ encodeURIComponent s'
  end.

(** The byte serializer of application/x-www-form-urlencoded (URL Standard):
    a space becomes [+], ASCII alphanumerics and [*-._] are kept, every other
    byte is percent-encoded. *)
Definition form_byte (b : N) : string :=
  if (b =? 32)%N then "+"
  else if is_alnum b || mem_char (ascii_of_N b) "*-._" then String (ascii_of_N b) EmptyString
  else percent b.

Definition form_unit (c : ascii) : string :=
  fold_right (fun b acc => form_byte b +:+ acc) EmptyString (utf8 c).

Fixpoint form_encode (s : string) : string :=
  match s with
  | EmptyString => EmptyString
  | String c s' => form_unit c +:+ form_encode s'
  end.

(** [new URLSearchParams()] holds a list of name-value pairs;
    [params.append(k, v)] adds a pair at the end. *)
Abbreviation URLSearchParams := (list (string * string)).

Definition params_append (params : URLSearchParams) (k v : string) : URLSearchParams :=
  params ++ [(k, v)].

(** [params.toString()] *)
Definition params_toString (params : URLSearchParams) : string :=
  join "&" (map (fun kv => form_encode (fst kv) +:+ "=" +:+ form_encode (snd kv)) params).

End URI.

Import URI.

(** ** Values *)

(** What the dispatcher needs of a JavaScript number: [Number::toString],
    truthiness and finiteness. *)
Class JSNumber (num : Type) : Type := {
  Number_toString : num -> string;
  Number_truthy : num -> bool;
  Number_isFinite : num -> bool
}.

(** Integers as numbers (the printing is that of JavaScript for integers of
    magnitude below 10^21). *)
#[export] Instance Z_JSNumber : JSNumber Z := {
  Number_toString z := NilZero.string_of_int (Z.to_int z);
  Number_truthy z := negb (z =? 0)%Z;
  Number_isFinite _ := true
}.

Section Values.

Context {num : Type} `{JSNumber num}.

#[warnings="-register-all"] Inductive value : Type :=
  | VUndefined
  | VNull
  | VBool (b : bool)
  | VNum (n : num)
  | VStr (s : string)
  | VArr (elems : list value)
  | VObj (props : list (string * value)).

(** A plain object: its own enumerable properties in enumeration order. *)
Abbreviation object := (list (string * value)).

(** [Object.keys(o)] and [Object.entries(o)] *)
Definition Object_keys (o : object) : list string := fst <$> o.
Definition Object_entries (o : object) : list (string * value) := o.

(** [o[k]] for an own property, [undefined] otherwise *)
Fixpoint get (o : object) (k : string) : value :=
  match o with
  | [] => VUndefined
  | (k', v) :: rest => if String.eqb k' k then v else get rest k
  end.

(** [delete o[k]] *)
Definition delete_prop (o : object) (k : string) : object :=
  filter (fun kv => kv.1 ≠ k) o.

(** [String(v)]; an array is joined with commas, its [undefined] and [null]
    elements printing as the empty string. *)
Fixpoint ToString (v : value) : string :=
  match v with
  | VUndefined => "undefined"
  | VNull => "null"
  | VBool true => "true"
  | VBool false => "false"
  | VNum n => Number_toString n
  | VStr s => s
  | VArr elems =>
      join ","
        ((fix each (l : list value) : list string :=
            match l with
            | [] => []
            | x :: rest =>
                match x with
                | VUndefined | VNull => EmptyString
                | _ => ToString x
                end :: each rest
            end) elems)
  | VObj _ => "[object Object]"
  end.

(** ToBoolean *)
Definition truthy (v : value) : bool :=
  match v with
  | VUndefined | VNull => false
  | VBool b => b
  | VNum n => Number_truthy n
  | VStr s => negb (String.eqb s EmptyString)
  | VArr _ | VObj _ => true
  end.

(** [v !== undefined] *)
Definition is_defined (v : value) : bool :=
  match v with VUndefined => false | _ => true end.

(** [v !== undefined && v !== null] *)
Definition neither_undefined_nor_null (v : value) : bool :=
  match v with VUndefined | VNull => false | _ => true end.

(** ** JSON.stringify *)

Definition hex_lower (n : N) : ascii :=
  ascii_of_N (if (n <? 10)%N then 48 + n else 87 + n).

(** QuoteJSONString, one code unit at a time *)
Definition quote_char (c : ascii) : string :=
  let n := N_of_ascii c in
  if (n =? 8)%N then "\b"
  else if (n =? 9)%N then "\t"
  else if (n =? 10)%N then "\n"
  else if (n =? 12)%N then "\f"
  else if (n =? 13)%N then "\r"
  else if (n =? 34)%N then String "\" dquote
  else if (n =? 92)%N then "\\"
  else if (n <? 32)%N then
    "\u00" +:+ String (hex_lower (n / 16)) (String (hex_lower (n mod 16)) EmptyString)
  else String c EmptyString.

Fixpoint quote_chars (s : string) : string :=
  match s with
  | EmptyString => EmptyString
  | String c s' => quote_char c +:+ quote_chars s'
  end.

Definition QuoteJSONString (s : string) : string := dquote +:+ quote_chars s +:+ dquote.

(** [JSON.stringify(v)]; [None] stands for the result [undefined]. A property
    whose value is [undefined] is left out of an object, an [undefined]
    element of an array is written [null]. *)
Fixpoint JSON_stringify (v : value) : option string :=
  match v with
  | VUndefined => None
  | VNull => Some "null"
  | VBool true => Some "true"
  | VBool false => Some "false"
  | VNum n => Some (if Number_isFinite n then Number_toString n else "null")
  | VStr s => Some (QuoteJSONString s)
  | VArr elems =>
      Some ("[" +:+
        join ","
          ((fix each (l : list value) : list string :=
              match l with
              | [] => []
              | x :: rest =>
                  match JSON_stringify x with
                  | Some s => s
                  | None => "null"
                  end :: each rest
              end) elems)
        +:+ "]")
  | VObj props =>
      Some ("{" +:+
        join ","
          ((fix each (l : list (string * value)) : list string :=
              match l with
              | [] => []
              | (k, x) :: rest =>
                  match JSON_stringify x with
                  | Some s => (QuoteJSONString k +:+ ":" +:+ s) :: each rest
                  | None => each rest
                  end
              end) props)
        +:+ "}")
  end.

End Values.

Arguments value : clear implicits.

Abbreviation object num := (list (string * value num)).

(** ** The route table *)

Inductive http_method : Type := GET | POST | DELETE | PATCH.

#[export] Instance http_method_eq_dec : EqDecision http_method.
Proof. solve_decision. Defined.

Record mapping : Type := { url : string; method : http_method }.

(** The entries of [COMMAND_MAPPING], in source order. *)
Definition COMMAND_MAPPING_entries : list (string * mapping) := [
  ("list_accounts", {| url := "/api/accounts"; method := GET |});
  ("get_current_account", {| url := "/api/accounts/current"; method := GET |});
  ("switch_account", {| url := "/api/accounts/switch"; method := POST |});
  ("add_account", {| url := "/api/accounts"; method := POST |});
  ("delete_account", {| url := "/api/accounts/:accountId"; method := DELETE |});
  ("delete_accounts", {| url := "/api/accounts/bulk-delete"; method := POST |});
  ("fetch_account_quota", {| url := "/api/accounts/:accountId/quota"; method := GET |});
  ("refresh_account_quota", {| url := "/api/accounts/:accountId/quota"; method := GET |});
  ("refresh_all_quotas", {| url := "/api/accounts/refresh"; method := POST |});
  ("reorder_accounts", {| url := "/api/accounts/reorder"; method := POST |});
  ("warm_up_accounts", {| url := "/api/accounts/warmup"; method := POST |});
  ("warm_up_all_accounts", {| url := "/api/accounts/warmup"; method := POST |});
  ("warm_up_account", {| url := "/api/accounts/:accountId/warmup"; method := POST |});
  ("update_account_label", {| url := "/api/accounts/:accountId/label"; method := POST |});
  ("export_accounts", {| url := "/api/accounts/export"; method := POST |});
  ("bind_device_profile", {| url := "/api/accounts/:accountId/bind-device"; method := POST |});
  ("get_device_profiles", {| url := "/api/accounts/:accountId/device-profiles"; method := GET |});
  ("list_device_versions", {| url := "/api/accounts/:accountId/device-versions"; method := GET |});
  ("preview_generate_profile", {| url := "/api/accounts/device-preview"; method := POST |});
  ("bind_device_profile_with_profile", {| url := "/api/accounts/:accountId/bind-device-profile"; method := POST |});
  ("restore_original_device", {| url := "/api/accounts/restore-original"; method := POST |});
  ("restore_device_version", {| url := "/api/accounts/:accountId/device-versions/:versionId/restore"; method := POST |});
  ("delete_device_version", {| url := "/api/accounts/:accountId/device-versions/:versionId"; method := DELETE |});
  ("open_device_folder", {| url := "/api/system/open-folder"; method := POST |});
  ("load_config", {| url := "/api/config"; method := GET |});
  ("save_config", {| url := "/api/config"; method := POST |});
  ("enable_debug_console", {| url := "/api/debug/enable"; method := POST |});
  ("disable_debug_console", {| url := "/api/debug/disable"; method := POST |});
  ("is_debug_console_enabled", {| url := "/api/debug/enabled"; method := GET |});
  ("get_debug_console_logs", {| url := "/api/debug/logs"; method := GET |});
  ("clear_debug_console_logs", {| url := "/api/debug/logs/clear"; method := POST |});
  ("get_data_dir_path", {| url := "/api/system/data-dir"; method := GET |});
  ("get_update_settings", {| url := "/api/system/updates/settings"; method := GET |});
  ("save_update_settings", {| url := "/api/system/updates/save"; method := POST |});
  ("is_auto_launch_enabled", {| url := "/api/system/autostart/status"; method := GET |});
  ("toggle_auto_launch", {| url := "/api/system/autostart/toggle"; method := POST |});
  ("get_http_api_settings", {| url := "/api/system/http-api/settings"; method := GET |});
  ("save_http_api_settings", {| url := "/api/system/http-api/settings"; method := POST |});
  ("get_antigravity_path", {| url := "/api/system/antigravity/path"; method := GET |});
  ("get_antigravity_args", {| url := "/api/system/antigravity/args"; method := GET |});
  ("should_check_updates", {| url := "/api/system/updates/check-status"; method := GET |});
  ("check_for_updates", {| url := "/api/system/updates/check"; method := POST |});
  ("update_last_check_time", {| url := "/api/system/updates/touch"; method := POST |});
  ("prepare_oauth_url", {| url := "/api/auth/url"; method := GET |});
  ("start_oauth_login", {| url := "/api/accounts/oauth/start"; method := POST |});
  ("complete_oauth_login", {| url := "/api/accounts/oauth/complete"; method := POST |});
  ("cancel_oauth_login", {| url := "/api/accounts/oauth/cancel"; method := POST |});
  ("submit_oauth_code", {| url := "/api/accounts/oauth/submit-code"; method := POST |});
  ("import_v1_accounts", {| url := "/api/accounts/import/v1"; method := POST |});
  ("import_from_db", {| url := "/api/accounts/import/db"; method := POST |});
  ("import_custom_db", {| url := "/api/accounts/import/db-custom"; method := POST |});
  ("sync_account_from_db", {| url := "/api/accounts/sync/db"; method := POST |});
  ("open_data_folder", {| url := "/api/system/open-folder"; method := POST |});
  ("clear_antigravity_cache", {| url := "/api/system/cache/clear"; method := POST |});
  ("get_antigravity_cache_paths", {| url := "/api/system/cache/paths"; method := GET |});
  ("clear_log_cache", {| url := "/api/system/logs/clear-cache"; method := POST |})
].

(** The own properties of the object [COMMAND_MAPPING]: a finite map from
    command names to routes, holding the entries above. *)
Definition COMMAND_MAPPING : gmap string mapping := list_to_map COMMAND_MAPPING_entries.

(** [COMMAND_MAPPING] is written as an object literal, so its prototype is
    [Object.prototype], and a property read that finds no own property goes
    on to the prototype. These are the property names of [Object.prototype]
    (ECMA-262, with its annex B). *)
Definition Object_prototype_names : list string :=
  ["constructor"; "hasOwnProperty"; "isPrototypeOf"; "propertyIsEnumerable";
   "toLocaleString"; "toString"; "valueOf"; "__proto__";
   "__defineGetter__"; "__defineSetter__"; "__lookupGetter__"; "__lookupSetter__"].

(** What the property read [COMMAND_MAPPING[cmd]] evaluates to. *)
Inductive lookup_result : Type :=
  | OwnEntry (m : mapping)   (* a route of the table *)
  | Inherited                (* a function or object of [Object.prototype]: truthy,
                                and without [url] or [method] property *)
  | Missing.                 (* [undefined] *)

Definition COMMAND_MAPPING_get (cmd : string) : lookup_result :=
  match COMMAND_MAPPING !! cmd with
  | Some m => OwnEntry m
  | None => if bool_decide (cmd ∈ Object_prototype_names) then Inherited else Missing
  end.

(** ** The world the dispatcher runs in *)

(** A reference to an object of the heap. *)
Abbreviation loc := positive (only parsing).

Section Dispatch.

Context {num : Type} `{JSNumber num}.

Abbreviation value := (value num).
Abbreviation object := (object num).

(** What a [throw] carries, or a promise is rejected with. *)
Inductive thrown : Type :=
  | ThrowValue (v : value)          (* [throw v] for a plain value *)
  | ThrowError (message : string)   (* [throw new Error(message)] *)
  | ThrowTypeError                  (* a property read on [null] or [undefined] *)
  | ThrowSyntaxError.               (* [JSON.parse] on a malformed text *)

Inductive outcome : Type :=
  | Resolved (v : value)
  | Rejected (t : thrown).

(** [RequestInit] together with the URL handed to [fetch]. *)
Record http_request : Type := {
  req_url : string;
  req_method : http_method;
  req_headers : list (string * string);
  req_body : option string
}.

(** What the dispatcher reads of a [Response]: its status and the text of
    its body. *)
Record response : Type := { status : N; body_text : string }.

(** [response.ok]: the status is in the range 200 to 299. *)
Definition ok (r : response) : bool := ((200 <=? status r) && (status r <=? 299))%N.

Inductive fetch_result : Type :=
  | FetchRejects (reason : thrown)
  | FetchResponds (r : response).

(** The host: the transport detector's verdict, the native [invoke], the
    network, the clock and the JSON parser. *)
Record env : Type := {
  isTauri : bool;
  invoke : string -> option object -> outcome;
  fetch : http_request -> fetch_result;
  Date_now : Z;
  JSON_parse : string -> option value
}.

Inductive log_level : Type := LogError | LogWarn.

Inductive log_extra : Type :=
  | ExtraNone
  | ExtraThrown (t : thrown)
  | ExtraText (s : string).

Record world : Type := {
  heap : gmap loc object;                 (* the objects callers hold references to *)
  sessionStorage : gmap string string;
  lastAuthErrorTime : option Z;           (* [window._lastAuthErrorTime], [None] when unset *)
  events : list string;                   (* names of the events dispatched on [window] *)
  console : list (log_level * string * log_extra);
  fetched : list http_request             (* the calls made to [fetch] *)
}.

(** ** State and exceptions *)

Inductive result (A : Type) : Type :=
  | Ok (a : A)
  | Throw (t : thrown).

Arguments Ok {A} a.
Arguments Throw {A} t.

Definition M (A : Type) : Type := world -> result A * world.

Definition ret {A} (a : A) : M A := fun w => (Ok a, w).

Definition bind {A B} (c : M A) (k : A -> M B) : M B :=
  fun w =>
    match c w with
    | (Ok a, w') => k a w'
    | (Throw t, w') => (Throw t, w')
    end.

Definition throw {A} (t : thrown) : M A := fun w => (Throw t, w).

(** [try { c } catch (e) { handler e }] *)
Definition try_catch {A} (c : M A) (handler : thrown -> M A) : M A :=
  fun w =>
    match c w with
    | (Ok a, w') => (Ok a, w')
    | (Throw t, w') => handler t w'
    end.

#[export] Instance M_ret : MRet M := @ret.
#[export] Instance M_bind : MBind M := fun A B k c => bind c k.

(** [l.forEach(x => body)], where [body] assigns to a local variable of the
    enclosing function; the variable is threaded through the iterations. *)
Fixpoint forEach {A S} (l : list A) (body : S -> A -> M S) (s : S) : M S :=
  match l with
  | [] => ret s
  | x :: rest => s' ← body s x; forEach rest body s'
  end.

(** Reading the object a reference points to. *)
Definition read (l : loc) : M object :=
  fun w => (Ok (default [] (heap w !! l)), w).

(** [{ ...o }]: a new object with the properties of [o]. *)
Definition spread (o : object) : M loc :=
  fun w =>
    let l := fresh (dom (heap w)) in
    (Ok l, {| heap := <[l := o]> (heap w); sessionStorage := sessionStorage w;
              lastAuthErrorTime := lastAuthErrorTime w; events := events w;
              console := console w; fetched := fetched w |}).

(** [delete r[k]] on the object [r] points to *)
Definition delete_at (l : loc) (k : string) : M unit :=
  fun w =>
    (Ok tt, {| heap := alter (fun o => delete_prop o k) l (heap w);
               sessionStorage := sessionStorage w;
               lastAuthErrorTime := lastAuthErrorTime w; events := events w;
               console := console w; fetched := fetched w |}).

(** [sessionStorage.getItem(k)] *)
Definition getItem (k : string) : M (option string) :=
  fun w => (Ok (sessionStorage w !! k), w).

Definition console_log (level : log_level) (text : string) (extra : log_extra) : M unit :=
  fun w =>
    (Ok tt, {| heap := heap w; sessionStorage := sessionStorage w;
               lastAuthErrorTime := lastAuthErrorTime w; events := events w;
               console := console w ++ [(level, text, extra)]; fetched := fetched w |}).

(** [(window as any)._lastAuthErrorTime || 0] *)
Definition get_lastAuthErrorTime : M Z :=
  fun w => (Ok (match lastAuthErrorTime w with Some t => t | None => 0%Z end), w).

Definition set_lastAuthErrorTime (t : Z) : M unit :=
  fun w =>
    (Ok tt, {| heap := heap w; sessionStorage := sessionStorage w;
               lastAuthErrorTime := Some t; events := events w;
               console := console w; fetched := fetched w |}).

(** [window.dispatchEvent(new CustomEvent(name))] *)
Definition dispatchEvent (name : string) : M unit :=
  fun w =>
    (Ok tt, {| heap := heap w; sessionStorage := sessionStorage w;
               lastAuthErrorTime := lastAuthErrorTime w; events := events w ++ [name];
               console := console w; fetched := fetched w |}).

(** [await fetch(url, options)]: the call is recorded, the network answers. *)
Definition do_fetch (e : env) (r : http_request) : M response :=
  fun w =>
    let w' := {| heap := heap w; sessionStorage := sessionStorage w;
                 lastAuthErrorTime := lastAuthErrorTime w; events := events w;
                 console := console w; fetched := fetched w ++ [r] |} in
    match fetch e r with
    | FetchResponds resp => (Ok resp, w')
    | FetchRejects reason => (Throw reason, w')
    end.

(** [JSON.parse(text)] *)
Definition parse (e : env) (text : string) : M value :=
  match JSON_parse e text with
  | Some v => ret v
  | None => throw ThrowSyntaxError
  end.

(** [v.error]: reading the property of [null] or [undefined] throws, a
    primitive or an array has no such property. *)
Definition get_error (v : value) : M value :=
  match v with
  | VUndefined | VNull => throw ThrowTypeError
  | VObj props => ret (get props "error")
  | _ => ret VUndefined
  end.

(** [String(n)] for a response status *)
Definition status_toString (n : N) : string := NilZero.string_of_uint (N.to_uint n).

(** ** The dispatcher *)

(** The callback of the path-parameter loop (request.ts, lines 104 to 113).
    [url] is the variable of [request] the callback assigns to; [args] and
    [bodyArgs] are the references the callback captures. *)
Definition substitute (args : loc) (bodyArgs : option loc) (url : string) (key : string)
  : M string :=
  let placeholder := ":" +:+ key in
  if includes url placeholder then
    a ← read args;
    let url := replace url placeholder (encodeURIComponent (ToString (get a key))) in
    match bodyArgs with
    | Some b => delete_at b key;; mret url
    | None => mret url
    end
  else mret url.

(** The callback of the query loop (lines 131 to 137); [params] is the
    [URLSearchParams] it appends to. *)
Definition add_param (url : string) (params : URLSearchParams) (entry : string * value)
  : M URLSearchParams :=
  let '(key, v) := entry in
  if includes url (encodeURIComponent (ToString v)) then mret params
  else if neither_undefined_nor_null v then mret (params_append params key (ToString v))
  else mret params.

Definition nonempty (s : string) : bool := negb (String.eqb s EmptyString).

(** The response handling of [request] (lines 146 to 181): the call to
    [fetch], the 401 debounce, the normalization of failures and results. *)
Definition send (e : env) (cmd : string) (r : http_request) : M value :=
  try_catch
    (response ← do_fetch e r;
     if negb (ok response) then
       (if negb (isTauri e) && (status response =? 401)%N then
          let now := Date_now e in
          lastAuthError ← get_lastAuthErrorTime;
          if (now - lastAuthError >? 2000)%Z then
            set_lastAuthErrorTime now;;
            dispatchEvent "abv-unauthorized"
          else mret tt
        else mret tt);;
       errorData ← try_catch (parse e (body_text response)) (fun _ => mret (VObj []));
       err ← get_error errorData;
       throw (ThrowValue
                (if truthy err then err
                 else VStr ("HTTP Error " +:+ status_toString (status response))))
     else if (status response =? 204)%N then mret VNull
     else
       let text := body_text response in
       if negb (nonempty text) then mret VNull
       else
         try_catch (parse e text)
           (fun _ =>
              console_log LogWarn
                ("Failed to parse JSON response for [" +:+ cmd +:+ "]:") (ExtraText text);;
              mret (VStr text)))
    (fun error =>
       console_log LogError ("Web Fetch Error [" +:+ cmd +:+ "]:") (ExtraThrown error);;
       throw error).

(** The authorization headers of [request] (lines 122 to 125): a string is
    truthy when it is not empty. *)
Definition auth_headers (apiKey : option string) : list (string * string) :=
  match apiKey with
  | Some k =>
      if nonempty k then [("Authorization", "Bearer " +:+ k); ("x-api-key", k)] else []
  | None => []
  end.

(** [request(cmd, args)]; [args] is a reference to the caller's argument bag,
    or [None] when the caller passes none. *)
Definition request (e : env) (cmd : string) (args : option loc) : M value :=
  if isTauri e then
    try_catch
      (a ← match args with
           | Some l => o ← read l; mret (Some o)
           | None => mret None
           end;
       match invoke e cmd a with
       | Resolved v => mret v
       | Rejected t => throw t
       end)
      (fun error =>
         console_log LogError ("Tauri Invoke Error [" +:+ cmd +:+ "]:") (ExtraThrown error);;
         throw error)
  else
    match COMMAND_MAPPING_get cmd with
    | Missing =>
        console_log LogError
          ("Command [" +:+ cmd +:+ "] is not yet mapped for Web mode. Failing.") ExtraNone;;
        throw (ThrowError ("Command [" +:+ cmd +:+ "] not supported in Web mode."))
    | Inherited =>
        (* [mapping] is truthy; [mapping.url] and [mapping.method] are
           [undefined]. The first [url.includes] of the path-parameter loop
           throws. Without a key to loop over, [fetch] is called with the URL
           [undefined], which it reads as the string "undefined", and with no
           method, which it takes to be GET; neither verb test holds. *)
        bodyArgs ← match args with
                   | Some l => o ← read l; b ← spread o; mret (Some b)
                   | None => mret None
                   end;
        match args with
        | Some l =>
            o ← read l;
            forEach (Object_keys o) (fun (_ : unit) _ => throw ThrowTypeError) tt
        | None => mret tt
        end;;
        apiKey ← getItem "abv_admin_api_key";
        let headers := ("Content-Type", "application/json") :: auth_headers apiKey in
        send e cmd {| req_url := "undefined"; req_method := GET;
                      req_headers := headers; req_body := None |}
    | OwnEntry mapping =>
        let url := url mapping in
        bodyArgs ← match args with
                   | Some l => o ← read l; b ← spread o; mret (Some b)
                   | None => mret None
                   end;
        url ← match args with
              | Some l => o ← read l; forEach (Object_keys o) (substitute l bodyArgs) url
              | None => mret url
              end;
        apiKey ← getItem "abv_admin_api_key";
        let headers := ("Content-Type", "application/json") :: auth_headers apiKey in
        '(url, body) ←
          match (if bool_decide (method mapping = GET) || bool_decide (method mapping = DELETE)
                 then args else None) with
          | Some l =>
              o ← read l;
              params ← forEach (Object_entries o) (add_param url) [];
              let qs := params_toString params in
              mret (if nonempty qs then url +:+ "?" +:+ qs else url, None)
          | None =>
              match (if bool_decide (method mapping = POST) || bool_decide (method mapping = PATCH)
                     then bodyArgs else None) with
              | Some b =>
                  o ← read b;
                  let body := if is_defined (get o "request") then get o "request" else VObj o in
                  mret (url, JSON_stringify body)
              | None => mret (url, None)
              end
          end;
        send e cmd {| req_url := url; req_method := method mapping;
                      req_headers := headers; req_body := body |}
    end.

End Dispatch.

Arguments thrown : clear implicits.
Arguments outcome : clear implicits.
Arguments fetch_result : clear implicits.
Arguments env : clear implicits.
Arguments log_extra : clear implicits.
Arguments world : clear implicits.
Arguments result : clear implicits.
Arguments M : clear implicits.
Arguments Ok {num A} a.
Arguments Throw {num A} t.

(** ** The dispatcher's loops as functions, and the notions the claims use *)

Module JSStringFacts.

(** [c] occurs in [s] *)
Fixpoint has_char (c : ascii) (s : string) : bool :=
  match s with
  | EmptyString => false
  | String d s' => Ascii.eqb d c || has_char c s'
  end.

(** [replace] when the replacement is copied as it is. *)
Fixpoint replace_literal (s p r : string) : string :=
  if startsWith s p then r +:+ slice (String.length p) s
  else match s with
       | EmptyString => EmptyString
       | String c s' => String c (replace_literal s' p r)
       end.

End JSStringFacts.

Import JSStringFacts.

Module Placeholders.

Definition is_name_char (c : ascii) : bool :=
  is_alnum (N_of_ascii c) || Ascii.eqb c "_".

(** The longest run of name characters at the head of [s]. *)
Fixpoint name_at (s : string) : string :=
  match s with
  | EmptyString => EmptyString
  | String c s' => if is_name_char c then String c (name_at s') else EmptyString
  end.

(** The [:name] placeholders of a URL, in order of occurrence. *)
Fixpoint placeholder_names (s : string) : list string :=
  match s with
  | EmptyString => []
  | String c s' =>
      if Ascii.eqb c ":" then
        match name_at s' with
        | EmptyString => placeholder_names s'
        | n => n :: placeholder_names s'
        end
      else placeholder_names s'
  end.

(** The first of [names] that [s] starts with. *)
Definition tag_at (names : list string) (s : string) : option string :=
  List.find (startsWith s) names.

(** For every colon of [s], the name of [names] that follows it, if any. *)
Fixpoint tags (names : list string) (s : string) : list (option string) :=
  match s with
  | EmptyString => []
  | String c s' =>
      if Ascii.eqb c ":" then tag_at names s' :: tags names s' else tags names s'
  end.

(** A template is regular when every colon starts one of its placeholders,
    no placeholder occurs twice and no placeholder name starts another. *)
Definition regular (t : string) : bool :=
  let names := placeholder_names t in
  bool_decide (tags names t = Some <$> names)
  && bool_decide (NoDup names)
  && forallb (fun n => negb (has_char ":" n)) names
  && forallb (fun n => forallb (fun m => implb (startsWith n m) (String.eqb n m)) names) names.

End Placeholders.

Import Placeholders.

Section Readings.

Context {num : Type} `{JSNumber num}.

Abbreviation value := (value num).
Abbreviation object := (object num).
Abbreviation world := (world num).
Abbreviation env := (env num).

Definition with_heap (w : world) (h : gmap loc object) : world :=
  {| heap := h; sessionStorage := sessionStorage w;
     lastAuthErrorTime := lastAuthErrorTime w; events := events w;
     console := console w; fetched := fetched w |}.

(** The argument bag a dispatch is called with ([None]: no bag). *)
Definition bag (w : world) (args : option loc) : option object :=
  match args with
  | Some l => Some (default [] (heap w !! l))
  | None => None
  end.

(** The path-parameter loop over the keys [keys] of the bag [o]: the URL it
    ends with and the keys it consumed, in order. *)
Fixpoint run_substitution (o : object) (keys : list string) (url : string)
  : string * list string :=
  match keys with
  | [] => (url, [])
  | key :: rest =>
      if includes url (":" +:+ key) then
        let '(u, consumed) :=
          run_substitution o rest
            (replace url (":" +:+ key) (encodeURIComponent (ToString (get o key)))) in
        (u, key :: consumed)
      else run_substitution o rest url
  end.

Definition substituted_url (template : string) (o : option object) : string :=
  match o with
  | Some o => (run_substitution o (Object_keys o) template).1
  | None => template
  end.

Definition consumed_keys (template : string) (o : object) : list string :=
  (run_substitution o (Object_keys o) template).2.

(** The body-use copy at the end of the loop: the bag minus the consumed keys. *)
Definition body_use_copy (template : string) (o : object) : object :=
  filter (fun kv => kv.1 ∉ consumed_keys template o) o.

(** The query loop: the parameters appended for the entries [entries]. *)
Fixpoint run_query (url : string) (entries : list (string * value)) (params : URLSearchParams)
  : URLSearchParams :=
  match entries with
  | [] => params
  | (key, v) :: rest =>
      if includes url (encodeURIComponent (ToString v)) then run_query url rest params
      else if neither_undefined_nor_null v
           then run_query url rest (params_append params key (ToString v))
           else run_query url rest params
  end.

(** The query parameters as the specification words them: the entries of the
    original bag in key order, without those whose value is [undefined] or
    [null] and without those whose URL-encoded string value occurs in the
    substituted URL. *)
Definition spec_query_params (o : object) (url : string) : list (string * string) :=
  (fun kv => (kv.1, ToString kv.2)) <$>
    (filter (fun kv => neither_undefined_nor_null kv.2 = true
                       ∧ includes url (encodeURIComponent (ToString kv.2)) = false) o).

(** The query string of a URL: what follows its first question mark. *)
Definition query_of (url : string) : string :=
  match split_first url "?" with
  | Some (_, q) => q
  | None => EmptyString
  end.

(** The request [request] hands to [fetch] for the route [m], the bag [o] and
    the stored credential [apiKey]. *)
Definition prepared (m : mapping) (o : option object) (apiKey : option string) : http_request :=
  let u := substituted_url (url m) o in
  let headers := ("Content-Type", "application/json") :: auth_headers apiKey in
  match (if bool_decide (method m = GET) || bool_decide (method m = DELETE) then o else None) with
  | Some o =>
      let qs := params_toString (run_query u (Object_entries o) []) in
      {| req_url := if nonempty qs then u +:+ "?" +:+ qs else u;
         req_method := method m; req_headers := headers; req_body := None |}
  | None =>
      match (if bool_decide (method m = POST) || bool_decide (method m = PATCH) then o else None) with
      | Some o =>
          let b := body_use_copy (url m) o in
          {| req_url := u; req_method := method m; req_headers := headers;
             req_body := JSON_stringify
                           (if is_defined (get b "request") then get b "request" else VObj b) |}
      | None =>
          {| req_url := u; req_method := method m; req_headers := headers; req_body := None |}
      end
  end.

(** The world after the working copy of the bag has been made and used. *)
Definition after_copy (m : mapping) (args : option loc) (w : world) : world :=
  match args with
  | Some l =>
      with_heap w (<[fresh (dom (heap w)) := body_use_copy (url m) (default [] (heap w !! l))]>
                     (heap w))
  | None => w
  end.

(** The dispatch [request e cmd args] started in [w] made one call to
    [fetch], with the request [r]. *)
Definition sends (e : env) (cmd : string) (args : option loc) (w : world)
    (r : http_request) : Prop :=
  fetched (request e cmd args w).2 = fetched w ++ [r].

(** It made that call and the network answered [resp]. *)
Definition receives (e : env) (cmd : string) (args : option loc) (w : world)
    (r : http_request) (resp : response) : Prop :=
  sends e cmd args w r ∧ fetch e r = FetchResponds resp.

(** The time of the last emission of the session-expired event, as the
    dispatcher reads it. *)
Definition last_emission (w : world) : Z :=
  match lastAuthErrorTime w with Some t => t | None => 0%Z end.

Definition unauthorized : string := "abv-unauthorized".

Definition http_error (resp : response) : value :=
  VStr ("HTTP Error " +:+ status_toString (status resp)).

Definition content_type : string * string := ("Content-Type", "application/json").

End Readings.

(** ** Sample hosts and worlds *)

Module Fixtures.

Definition quoted (s : string) : string := dquote +:+ s +:+ dquote.

(** The text of a response body with a single [error] field. *)
Definition error_body (message : string) : string :=
  "{" +:+ quoted "error" +:+ ":" +:+ quoted message +:+ "}".

(** What [JSON.parse] returns on the sample bodies. *)
Definition sample_parse (text : string) : option (value Z) :=
  if String.eqb text (error_body "forbidden") then Some (VObj [("error", VStr "forbidden")])
  else if String.eqb text (error_body EmptyString)
       then Some (VObj [("error", VStr EmptyString)])
  else if String.eqb text "null" then Some VNull
  else if String.eqb text "true" then Some (VBool true)
  else None.

(** A browser whose backend answers every request with the status [st] and
    the body [body], at the time [now]. *)
Definition browser (now : Z) (st : N) (body : string) : env Z :=
  {| isTauri := false;
     invoke := fun _ _ => Resolved VUndefined;
     fetch := fun _ => FetchResponds {| status := st; body_text := body |};
     Date_now := now;
     JSON_parse := sample_parse |}.

(** A world right after start-up: the caller holds the bag [o] at the
    reference 1 and the session storage holds [token]. *)
Definition start (o : object Z) (token : option string) : world Z :=
  {| heap := {[ 1%positive := o ]};
     sessionStorage := match token with
                       | Some t => {[ "abv_admin_api_key" := t ]}
                       | None => ∅
                       end;
     lastAuthErrorTime := None;
     events := [];
     console := [];
     fetched := [] |}.

(** Sample argument bags. *)
Definition quota_bag : object Z := [("accountId", VStr "abc123"); ("extra", VStr "x")].
Definition switch_bag : object Z := [("accountId", VStr "abc123")].
Definition overlapping_bag : object Z :=
  [("versionId", VStr "abc"); ("accountId/device-versions/a", VStr "Z")].
Definition device_bag : object Z := [("versionId", VStr "v2"); ("accountId", VStr "a1")].
Definition undefined_request_bag : object Z := [("request", VUndefined); ("a", VStr "1")].
Definition wrapped_bag : object Z :=
  [("accountId", VStr "abc123"); ("request", VObj [("label", VStr "work")]); ("extra", VNull)].

(** The request made for a command name that [Object.prototype] defines. *)
Definition inherited_request : http_request :=
  {| req_url := "undefined"; req_method := GET;
     req_headers := [content_type]; req_body := None |}.

(** The request of [load_config] when no credential is stored. *)
Definition load_config_request : http_request :=
  {| req_url := "/api/config"; req_method := GET;
     req_headers := [content_type]; req_body := None |}.

End Fixtures.



(** ** Paths and sequences of dispatches *)

Module Paths.

(** How many times [c] occurs in [s]. *)
Fixpoint count_char (c : ascii) (s : string) : nat :=
  match s with
  | EmptyString => 0
  | String d s' => (if Ascii.eqb d c then 1 else 0) + count_char c s'
  end.

(** The segments of a path: the texts between its slashes. *)
Fixpoint segments (s : string) : list string :=
  match s with
  | EmptyString => [EmptyString]
  | String c s' =>
      if Ascii.eqb c "/" then EmptyString :: segments s'
      else match segments s' with
           | seg :: rest => String c seg :: rest
           | [] => [String c EmptyString]
           end
  end.

(** [replace_literal] applied to the first text of a list that includes the
    pattern. *)
Fixpoint replace_in_first (segs : list string) (p r : string) : list string :=
  match segs with
  | [] => []
  | seg :: rest =>
      if includes seg p then replace_literal seg p r :: rest
      else seg :: replace_in_first rest p r
  end.

(** The text of a URL template before its first colon. *)
Fixpoint static_prefix (t : string) : string :=
  match t with
  | EmptyString => EmptyString
  | String c t' => if Ascii.eqb c ":" then EmptyString else String c (static_prefix t')
  end.

(** No segment of the path holds more than one colon. *)
Definition one_colon_per_segment (t : string) : bool :=
  forallb (fun seg => Nat.leb (count_char ":" seg) 1) (segments t).

End Paths.

Import Paths.

Section Sequences.

Context {num : Type} `{JSNumber num}.

(** Dispatches made one after the other, each with the host as it is at that
    time: the world one dispatch leaves is the world the next one starts in. *)
Fixpoint dispatch_all (calls : list (env num * string * option loc)) (w : world num)
  : world num :=
  match calls with
  | [] => w
  | (e, cmd, args) :: rest => dispatch_all rest (request e cmd args w).2
  end.

(** The entry [console.error] writes when a dispatch fails after its request
    was prepared. *)
Definition fetch_error_entry (cmd : string) (t : thrown num)
  : log_level * string * log_extra num :=
  (LogError, "Web Fetch Error [" +:+ cmd +:+ "]:", ExtraThrown t).

Definition invoke_error_entry (cmd : string) (t : thrown num)
  : log_level * string * log_extra num :=
  (LogError, "Tauri Invoke Error [" +:+ cmd +:+ "]:", ExtraThrown t).

End Sequences.


(** ** Reading an encoded string back *)

Module Decoding.

(** The value of a hexadecimal digit as [percent] writes it. *)
Definition hex_value (c : ascii) : N :=
  let n := N_of_ascii c in if (n <? 58)%N then (n - 48)%N else (n - 55)%N.

Definition byte_of (h l : ascii) : N := (16 * hex_value h + hex_value l)%N.

(** The code unit at the head of an encoded string, and what follows it: a
    kept character stands for itself, [%XX] below 128 for the byte XX, and
    two escapes for the code unit whose UTF-8 encoding they spell. *)
Definition read_unit (s : string) : option (ascii * string) :=
  match s with
  | EmptyString => None
  | String "%" (String h1 (String l1 rest)) =>
      let b1 := byte_of h1 l1 in
      if (b1 <? 128)%N then Some (ascii_of_N b1, rest)
      else match rest with
           | String "%" (String h2 (String l2 rest')) =>
               Some (ascii_of_N ((b1 - 192) * 64 + (byte_of h2 l2 - 128)), rest')
           | _ => None
           end
  | String c rest => Some (c, rest)
  end.

End Decoding.

Import Decoding.

(** ** More sample hosts *)

Module Hosts.

(** The desktop application, whose [invoke] ends every call as [result]. *)
Definition desktop (result : outcome Z) : env Z :=
  {| isTauri := true;
     invoke := fun _ _ => result;
     fetch := fun _ => FetchRejects ThrowTypeError;
     Date_now := 0;
     JSON_parse := Fixtures.sample_parse |}.

(** A browser without network: every [fetch] fails with [reason]. *)
Definition offline (reason : thrown Z) : env Z :=
  {| isTauri := false;
     invoke := fun _ _ => Resolved VUndefined;
     fetch := fun _ => FetchRejects reason;
     Date_now := 0;
     JSON_parse := Fixtures.sample_parse |}.

End Hosts.



(** * Facts *)

(** ** Strings *)

Section StringFacts.

Lemma append_cons c a b : String c a +:+ b = String c (a +:+ b).
Proof. reflexivity. Qed.

Lemma append_nil b : EmptyString +:+ b = b.
Proof. reflexivity. Qed.

Lemma startsWith_split s p : startsWith s p = true -> s = p +:+ slice (String.length p) s.
Proof.
  revert s; induction p as [|a p IH]; intros s Hs; [done|].
  destruct s as [|b s]; simpl in *; [done|].
  destruct (Ascii.eqb a b) eqn:E; [|done].
  apply Ascii.eqb_eq in E as ->. rewrite append_cons. f_equal. by apply IH.
Qed.

(** Two prefixes of one string: one of them is a prefix of the other. *)
Lemma startsWith_comparable s n m :
  startsWith s n = true -> startsWith s m = true ->
  startsWith n m = true \/ startsWith m n = true.
Proof.
  revert n m; induction s as [|c s IH]; intros n m Hn Hm.
  - destruct n; [|done]. destruct m; [|done]. by left.
  - destruct n as [|a n]; [by right; destruct m|].
    destruct m as [|b m]; [by left|].
    simpl in *.
    destruct (Ascii.eqb a c) eqn:Ea; [|done].
    destruct (Ascii.eqb b c) eqn:Eb; [|done].
    apply Ascii.eqb_eq in Ea as ->. apply Ascii.eqb_eq in Eb as ->.
    rewrite Ascii.eqb_refl. by apply IH.
Qed.

Lemma has_char_app c a b : has_char c (a +:+ b) = has_char c a || has_char c b.
Proof.
  induction a as [|d a IH]; [done|].
  rewrite append_cons. simpl. by rewrite IH, orb_assoc.
Qed.

Lemma includes_tail c s p : includes s p = true -> includes (String c s) p = true.
Proof. intros Hs. simpl. by destruct (startsWith (String c s) p). Qed.

Lemma GetSubstitution_literal matched before after r :
  has_char "$" r = false -> GetSubstitution matched before after r = r.
Proof.
  induction r as [|c r IH]; simpl; [done|].
  intros Hr. apply orb_false_elim in Hr as [Hc Hr].
  rewrite Hc. f_equal. by apply IH.
Qed.

Lemma split_first_literal s p r :
  match split_first s p with
  | Some (before, after) => before +:+ r +:+ after
  | None => s
  end = replace_literal s p r.
Proof.
  induction s as [|c s IH]; simpl.
  - destruct (startsWith EmptyString p); done.
  - destruct (startsWith (String c s) p); [done|].
    rewrite <-IH. by destruct (split_first s p) as [[? ?]|].
Qed.

(** A replacement without dollar sign is copied as it is. *)
Lemma replace_is_literal s p r :
  has_char "$" r = false -> replace s p r = replace_literal s p r.
Proof.
  intros Hr. rewrite <-split_first_literal. unfold replace.
  destruct (split_first s p) as [[before after]|]; [|done].
  by rewrite GetSubstitution_literal.
Qed.

End StringFacts.

(** ** Percent-encoding *)

Section EncodingFacts.

Lemma encode_unit_clean c :
  has_char ":" (encode_unit c) = false /\ has_char "$" (encode_unit c) = false.
Proof. destruct c as [[] [] [] [] [] [] [] []]; vm_compute; done. Qed.

Lemma encodeURIComponent_no_colon s : has_char ":" (encodeURIComponent s) = false.
Proof.
  induction s as [|c s IH]; simpl; [done|].
  rewrite has_char_app, IH.
  by rewrite (proj1 (encode_unit_clean c)).
Qed.

Lemma encodeURIComponent_no_dollar s : has_char "$" (encodeURIComponent s) = false.
Proof.
  induction s as [|c s IH]; simpl; [done|].
  rewrite has_char_app, IH.
  by rewrite (proj2 (encode_unit_clean c)).
Qed.

Lemma form_unit_clean c :
  has_char ":" (form_unit c) = false /\ has_char "?" (form_unit c) = false
  /\ has_char "=" (form_unit c) = false /\ has_char "&" (form_unit c) = false.
Proof. destruct c as [[] [] [] [] [] [] [] []]; vm_compute; done. Qed.

Lemma form_encode_clean s :
  has_char ":" (form_encode s) = false /\ has_char "=" (form_encode s) = false
  /\ has_char "&" (form_encode s) = false.
Proof.
  induction s as [|c s (IH1 & IH2 & IH3)]; simpl; [done|].
  rewrite !has_char_app, IH1, IH2, IH3.
  destruct (form_unit_clean c) as (-> & _ & -> & ->). done.
Qed.

Lemma join_no_colon sep l :
  has_char ":" sep = false -> Forall (fun x => has_char ":" x = false) l ->
  has_char ":" (join sep l) = false.
Proof.
  intros Hsep. induction 1 as [|x l Hx Hl IH]; simpl; [done|].
  destruct l; [done|]. by rewrite !has_char_app, Hx, Hsep, IH.
Qed.

Lemma params_toString_no_colon params : has_char ":" (params_toString params) = false.
Proof.
  unfold params_toString. apply join_no_colon; [done|].
  apply List.Forall_forall. intros x Hx. apply in_map_iff in Hx as ([k v] & <- & _).
  simpl. rewrite !has_char_app.
  destruct (form_encode_clean k) as (-> & _). by destruct (form_encode_clean v) as (-> & _).
Qed.

Lemma append_eq_empty a b : a +:+ b = EmptyString -> a = EmptyString /\ b = EmptyString.
Proof. destruct a; [done|]. by rewrite append_cons. Qed.

Lemma params_toString_empty params : params_toString params = EmptyString <-> params = [].
Proof.
  split; [|by intros ->].
  destruct params as [|[k v] rest]; [done|].
  unfold params_toString. simpl.
  intros Hs. exfalso.
  assert (Hne : form_encode k +:+ "=" +:+ form_encode v <> EmptyString).
  { intros [_ [? _]%append_eq_empty]%append_eq_empty. done. }
  destruct (map _ rest) as [|y ys]; [done|].
  by apply append_eq_empty in Hs as [? _].
Qed.

End EncodingFacts.

(** ** Placeholders and the colons of a URL *)

Section TagFacts.

Variable names : list string.
Hypothesis names_no_colon : forall n, n ∈ names -> has_char ":" n = false.
Hypothesis names_incomparable :
  forall n m, n ∈ names -> m ∈ names -> startsWith n m = true -> n = m.

Lemma tag_at_sound s n : tag_at names s = Some n -> n ∈ names /\ startsWith s n = true.
Proof. intros [Hin Hn]%find_some. by apply list_elem_of_In in Hin. Qed.

Lemma tag_at_unique s n : n ∈ names -> startsWith s n = true -> tag_at names s = Some n.
Proof.
  intros Hin Hn. destruct (tag_at names s) as [m|] eqn:E.
  - apply tag_at_sound in E as [Hm Hsm]. f_equal.
    destruct (startsWith_comparable s n m Hn Hsm) as [Hc|Hc].
    + symmetry. by apply names_incomparable.
    + by apply names_incomparable.
  - apply list_elem_of_In in Hin.
    pose proof (find_none _ _ E _ Hin) as Hf. simpl in Hf. congruence.
Qed.

Lemma tags_colon_free v s : has_char ":" v = false -> tags names (v +:+ s) = tags names s.
Proof.
  induction v as [|c v IH]; [done|].
  rewrite append_cons. simpl. intros [Hc Hv]%orb_false_elim.
  rewrite Hc. by apply IH.
Qed.

Lemma tags_app_suffix k s : exists l, tags names (k +:+ s) = l ++ tags names s.
Proof.
  induction k as [|c k [l IH]]; [by exists []|].
  rewrite append_cons. simpl. destruct (Ascii.eqb c ":").
  - exists (tag_at names (k +:+ s) :: l). by rewrite IH.
  - by exists l.
Qed.

Lemma tags_nil s : tags names s = [] <-> has_char ":" s = false.
Proof.
  induction s as [|c s IH]; simpl; [done|].
  destruct (Ascii.eqb c ":"); simpl; [done|]. apply IH.
Qed.

Lemma tags_names s t : t ∈ tags names s -> Forall is_Some (tags names s) ->
  exists n, t = Some n /\ n ∈ names.
Proof.
  intros Ht Hall. rewrite Forall_forall in Hall. destruct (Hall _ Ht) as [n ->].
  exists n. split; [done|].
  clear Hall. induction s as [|c s IH]; simpl in Ht; [by apply elem_of_nil in Ht|].
  destruct (Ascii.eqb c ":"); [|by apply IH].
  apply elem_of_cons in Ht as [Ht|Ht]; [|by apply IH].
  symmetry in Ht. by apply tag_at_sound in Ht as [? _].
Qed.

Lemma tags_includes s n : Some n ∈ tags names s -> includes s (":" +:+ n) = true.
Proof.
  induction s as [|c s IH]; cbn [tags]; [by intros ?%elem_of_nil|].
  destruct (Ascii.eqb c ":") eqn:Ec.
  - apply Ascii.eqb_eq in Ec as ->. intros [Ht|Ht]%elem_of_cons.
    + symmetry in Ht. apply tag_at_sound in Ht as [_ Hn].
      rewrite append_cons, append_nil. simpl. by rewrite Hn.
    + by apply includes_tail, IH.
  - intros Ht. by apply includes_tail, IH.
Qed.

Lemma startsWith_replace_literal s m key v :
  has_char ":" m = false -> startsWith s m = true ->
  startsWith (replace_literal s (":" +:+ key) v) m = true.
Proof.
  revert s. induction m as [|a m IH]; intros s Hm Hs; [done|].
  destruct s as [|b s]; [done|].
  simpl in Hm, Hs. apply orb_false_elim in Hm as [Ha Hm].
  destruct (Ascii.eqb a b) eqn:Eab; [|done]. apply Ascii.eqb_eq in Eab as <-.
  rewrite append_cons, append_nil. cbn [replace_literal startsWith].
  rewrite (Ascii.eqb_sym ":" a), Ha. cbn [startsWith]. rewrite Ascii.eqb_refl.
  specialize (IH s Hm Hs). by rewrite append_cons, append_nil in IH.
Qed.

(** Replacing [:key] by a text without colon removes the tag of the colon it
    starts at, and possibly tags after it, and changes no other tag. *)
Lemma tags_replace_literal s key v :
  has_char ":" v = false ->
  Forall is_Some (tags names s) ->
  includes s (":" +:+ key) = true ->
  exists l1 t l2 l3,
    tags names s = l1 ++ t :: l2 ++ l3
    /\ tags names (replace_literal s (":" +:+ key) v) = l1 ++ l3
    /\ (key ∈ names -> t = Some key).
Proof.
  intros Hv. rewrite append_cons, append_nil.
  induction s as [|c s IH]; intros Hall Hinc; [by cbn in Hinc|].
  cbn [includes replace_literal] in *.
  destruct (startsWith (String c s) (String ":" key)) eqn:Hst.
  - cbn [startsWith] in Hst. destruct (Ascii.eqb ":" c) eqn:Ec; [|done].
    apply Ascii.eqb_eq in Ec as <-.
    pose proof (startsWith_split _ _ Hst) as Hs.
    simpl. set (rest := slice (String.length key) s) in *.
    destruct (tags_app_suffix key rest) as [l2 Hl2].
    exists [], (tag_at names s), l2, (tags names rest). repeat split.
    + simpl. f_equal. by rewrite Hs at 1.
    + by apply tags_colon_free.
    + intros Hk. by apply tag_at_unique.
  - simpl in Hall |- *. destruct (Ascii.eqb c ":") eqn:Ec.
    + apply Forall_cons in Hall as [[m Hm] Hall].
      destruct (IH Hall Hinc) as (l1 & t & l2 & l3 & H1 & H2 & H3).
      exists (tag_at names s :: l1), t, l2, l3. repeat split; [by rewrite H1| |done].
      rewrite H2. simpl. f_equal.
      rewrite Hm. apply tag_at_sound in Hm as [Hin Hsm].
      apply tag_at_unique; [done|].
      pose proof (startsWith_replace_literal s m key v (names_no_colon _ Hin) Hsm) as Hr.
      by rewrite append_cons, append_nil in Hr.
    + destruct (IH Hall Hinc) as (l1 & t & l2 & l3 & H1 & H2 & H3).
      by exists l1, t, l2, l3.
Qed.

End TagFacts.

(** ** The path-parameter loop *)

Section SubstitutionFacts.

Context {num : Type} `{JSNumber num}.

Abbreviation object := (object num).

Lemma run_substitution_cons (o : object) key rest url :
  run_substitution o (key :: rest) url =
    if includes url (":" +:+ key) then
      let r := run_substitution o rest
                 (replace url (":" +:+ key) (encodeURIComponent (ToString (get o key)))) in
      (r.1, key :: r.2)
    else run_substitution o rest url.
Proof. simpl. destruct (includes _ _); [|done]. by destruct (run_substitution _ _ _). Qed.

Variable names : list string.
Hypothesis names_no_colon : forall n, n ∈ names -> has_char ":" n = false.
Hypothesis names_incomparable :
  forall n m, n ∈ names -> m ∈ names -> startsWith n m = true -> n = m.

(** The loop only removes tags, and it removes the tag of every placeholder
    name among the keys it visits. *)
Lemma run_substitution_tags (o : object) keys url :
  Forall is_Some (tags names url) -> NoDup (tags names url) ->
  let u := (run_substitution o keys url).1 in
  Forall is_Some (tags names u) /\ NoDup (tags names u)
  /\ (forall t, t ∈ tags names u -> t ∈ tags names url)
  /\ (forall n, n ∈ names -> n ∈ keys -> Some n ∉ tags names u).
Proof.
  revert url. induction keys as [|key rest IH]; intros url Hall Hnd; cbn zeta.
  - simpl. repeat split; try done. intros n _ Hn. by apply elem_of_nil in Hn.
  - rewrite run_substitution_cons.
    destruct (includes url (":" +:+ key)) eqn:Hinc; cbn zeta; cbn [fst].
    + set (v := encodeURIComponent (ToString (get o key))).
      assert (Hv : has_char ":" v = false) by apply encodeURIComponent_no_colon.
      rewrite replace_is_literal by apply encodeURIComponent_no_dollar. fold v.
      destruct (tags_replace_literal names names_no_colon names_incomparable
                  url key v Hv Hall Hinc) as (l1 & t & l2 & l3 & H1 & H2 & H3).
      set (url1 := replace_literal url (":" +:+ key) v) in *.
      assert (Hsub : forall x, x ∈ tags names url1 -> x ∈ tags names url).
      { intros x. rewrite H1, H2, !elem_of_app, elem_of_cons, elem_of_app. tauto. }
      assert (Hall1 : Forall is_Some (tags names url1)).
      { rewrite Forall_forall in Hall |- *. auto. }
      assert (Hnd1 : NoDup (tags names url1)).
      { rewrite H1 in Hnd. rewrite H2.
        apply NoDup_app in Hnd as (Hn1 & Hd & Hn2).
        apply NoDup_cons in Hn2 as [_ Hn2]. apply NoDup_app in Hn2 as (_ & _ & Hn3).
        apply NoDup_app. repeat split; [done| |done].
        intros x Hx1 Hx3. apply (Hd x Hx1).
        rewrite elem_of_cons, elem_of_app. tauto. }
      destruct (IH url1 Hall1 Hnd1) as (I1 & I2 & I3 & I4).
      repeat split; [done|done|by auto|].
      intros n Hn [->|Hin]%elem_of_cons; [|by apply I4].
      intros Hu%I3. rewrite H2 in Hu. rewrite H1, (H3 Hn) in Hnd.
      apply NoDup_app in Hnd as (_ & Hd & Hn2).
      apply NoDup_cons in Hn2 as [Hn2 _].
      apply elem_of_app in Hu as [Hu|Hu].
      * apply (Hd _ Hu). by left.
      * apply Hn2. apply elem_of_app. by right.
    + destruct (IH url Hall Hnd) as (I1 & I2 & I3 & I4).
      repeat split; [done|done|done|].
      intros n Hn [->|Hin]%elem_of_cons; [|by apply I4].
      intros Hu%I3. apply (tags_includes names) in Hu. congruence.
Qed.

End SubstitutionFacts.

Section RegularTemplates.

Context {num : Type} `{JSNumber num}.

Lemma regular_spec t :
  regular t = true ->
  let names := placeholder_names t in
  tags names t = Some <$> names /\ NoDup names
  /\ (forall n, n ∈ names -> has_char ":" n = false)
  /\ (forall n m, n ∈ names -> m ∈ names -> startsWith n m = true -> n = m).
Proof.
  unfold regular. cbn zeta.
  intros [[[Ht Hnd]%andb_prop Hc]%andb_prop Hi]%andb_prop.
  apply bool_decide_eq_true in Ht, Hnd.
  rewrite forallb_forall in Hc, Hi.
  repeat split; [done|done| |].
  - intros n Hn%list_elem_of_In. apply Hc in Hn. by destruct (has_char ":" n).
  - intros n m Hn%list_elem_of_In Hm%list_elem_of_In Hs.
    apply Hi in Hn. rewrite forallb_forall in Hn. apply Hn in Hm.
    rewrite Hs in Hm. simpl in Hm. by apply String.eqb_eq.
Qed.

(** On a regular template, a bag that has a key for every placeholder leaves
    no colon in the URL. *)
Lemma regular_substituted (o : object num) t :
  regular t = true ->
  (forall n, n ∈ placeholder_names t -> n ∈ Object_keys o) ->
  has_char ":" (substituted_url t (Some o)) = false.
Proof.
  intros (Ht & Hnd & Hc & Hi)%regular_spec Hkeys. cbn zeta in *.
  set (names := placeholder_names t) in *.
  assert (Hall : Forall is_Some (tags names t)).
  { rewrite Ht. apply Forall_fmap, Forall_true. by eexists. }
  assert (Hnd' : NoDup (tags names t)).
  { rewrite Ht. apply NoDup_fmap_2; [|done]. by intros ?? [=]. }
  destruct (run_substitution_tags names Hc Hi o (Object_keys o) t Hall Hnd')
    as (I1 & I2 & I3 & I4).
  apply (tags_nil names). unfold substituted_url.
  destruct (tags names (run_substitution o (Object_keys o) t).1) as [|x l] eqn:E; [done|].
  exfalso.
  assert (Hx : x ∈ tags names (run_substitution o (Object_keys o) t).1)
    by (rewrite E; by left).
  rewrite <-E in I1.
  destruct (tags_names names _ _ Hx I1) as (n & -> & Hn).
  apply (I4 n Hn (Hkeys n Hn)). by left.
Qed.

Lemma placeholder_names_no_colon s : has_char ":" s = false -> placeholder_names s = [].
Proof.
  induction s as [|c s IH]; simpl; [done|].
  intros [Hc Hs]%orb_false_elim. rewrite Hc. by apply IH.
Qed.

Lemma COMMAND_MAPPING_regular cmd m :
  COMMAND_MAPPING !! cmd = Some m -> regular (url m) = true.
Proof.
  intros Hm. apply elem_of_list_to_map_2 in Hm.
  assert (Hall : Forall (fun e => regular (url e.2) = true) COMMAND_MAPPING_entries).
  { apply Forall_forall. intros e He. 
    repeat (apply elem_of_cons in He as [->|He]; [by vm_compute|]).
    by apply elem_of_nil in He. }
  rewrite Forall_forall in Hall. apply (Hall _ Hm).
Qed.

End RegularTemplates.

(** ** The dispatcher, step by step *)

Section DispatchFacts.

Context {num : Type} `{JSNumber num}.

Abbreviation value := (value num).
Abbreviation object := (object num).
Abbreviation world := (world num).
Abbreviation env := (env num).

Lemma with_heap_same (w : world) : with_heap w (heap w) = w.
Proof. by destruct w. Qed.

Lemma delete_prop_filter (o : object) key (c : list string) :
  filter (fun kv => kv.1 ∉ c) (delete_prop o key) = filter (fun kv => kv.1 ∉ key :: c) o.
Proof.
  unfold delete_prop. induction o as [|[k v] o IH]; [done|].
  rewrite (filter_cons (fun kv : string * value => kv.1 ≠ key)).
  rewrite (filter_cons (fun kv : string * value => kv.1 ∉ key :: c)).
  cbn [fst]. destruct (decide (k ≠ key)) as [Hne|Heq].
  - rewrite (filter_cons (fun kv : string * value => kv.1 ∉ c)). cbn [fst]. rewrite IH.
    destruct (decide (k ∉ c)) as [Hc|Hc].
    + by rewrite decide_True by (rewrite elem_of_cons; intros [?|?]; done).
    + by rewrite decide_False by (rewrite elem_of_cons; intros Hn; apply Hc; intros ?; apply Hn; by right).
  - rewrite IH. rewrite decide_False; [done|].
    intros Hn. apply Hn. apply elem_of_cons. left.
    by destruct (decide (k = key)).
Qed.

Lemma filter_not_in_nil (o : object) : filter (fun kv => kv.1 ∉ @nil string) o = o.
Proof.
  induction o as [|kv o IH]; [done|].
  rewrite (filter_cons (fun kv : string * value => kv.1 ∉ @nil string)).
  rewrite decide_True by apply not_elem_of_nil. by rewrite IH.
Qed.

Lemma substitute_step (l b : loc) url key (w : world) :
  substitute l (Some b) url key w =
    if includes url (":" +:+ key) then
      (Ok (replace url (":" +:+ key)
             (encodeURIComponent (ToString (get (default [] (heap w !! l)) key)))),
       with_heap w (alter (fun o => delete_prop o key) b (heap w)))
    else (Ok url, w).
Proof. unfold substitute. by destruct (includes url (":" +:+ key)). Qed.

(** The path-parameter loop, run on the heap: it computes [run_substitution]
    and removes the consumed keys from the working copy [b], and from no
    other object. *)
Lemma forEach_substitute (l b : loc) keys url (w : world) ob :
  l ≠ b -> heap w !! b = Some ob ->
  let r := run_substitution (default [] (heap w !! l)) keys url in
  forEach keys (substitute l (Some b)) url w =
    (Ok r.1, with_heap w (<[b := filter (fun kv => kv.1 ∉ r.2) ob]> (heap w))).
Proof.
  intros Hlb. revert url w ob.
  induction keys as [|key rest IH]; intros url w ob Hb; cbn zeta.
  - simpl. unfold ret. rewrite filter_not_in_nil, insert_id by done.
    by rewrite with_heap_same.
  - rewrite run_substitution_cons. cbn [forEach].
    unfold mbind, M_bind, bind. rewrite substitute_step.
    destruct (includes url (":" +:+ key)) eqn:Hinc; cbn zeta.
    + set (w1 := with_heap w _).
      assert (Hb1 : heap w1 !! b = Some (delete_prop ob key)).
      { subst w1. cbn [heap with_heap]. by rewrite lookup_alter_eq, Hb. }
      assert (Hl1 : heap w1 !! l = heap w !! l).
      { subst w1. cbn [heap with_heap]. by rewrite lookup_alter_ne. }
      specialize (IH (replace url (":" +:+ key)
                        (encodeURIComponent (ToString (get (default [] (heap w !! l)) key))))
                     w1 _ Hb1).
      cbn zeta in IH. rewrite Hl1 in IH. rewrite IH. cbn [fst snd].
      f_equal. unfold with_heap. subst w1.
      cbn [heap sessionStorage lastAuthErrorTime events console fetched with_heap].
      f_equal. rewrite delete_prop_filter.
      apply map_eq. intros i. destruct (decide (i = b)) as [->|Hi].
      * by rewrite !lookup_insert_eq.
      * by rewrite !lookup_insert_ne, lookup_alter_ne.
    + by apply IH.
Qed.

Lemma forEach_add_param url entries params (w : world) :
  forEach entries (add_param url) params w = (Ok (run_query url entries params), w).
Proof.
  revert params. induction entries as [|[key v] rest IH]; intros params; [done|].
  cbn [forEach run_query]. unfold mbind, M_bind, bind, add_param.
  destruct (includes url _); [apply IH|].
  destruct (neither_undefined_nor_null v); apply IH.
Qed.

(** The query loop appends what the specification describes. *)
Lemma run_query_spec url (o : object) params :
  run_query url o params = params ++ spec_query_params o url.
Proof.
  unfold spec_query_params. revert params.
  induction o as [|[key v] rest IH]; intros params; [by rewrite app_nil_r|].
  cbn [run_query].
  rewrite (filter_cons (fun kv : string * value => neither_undefined_nor_null kv.2 = true
             ∧ includes url (encodeURIComponent (ToString kv.2)) = false)).
  cbn [fst snd].
  destruct (includes url _) eqn:Hinc.
  - rewrite decide_False by (intros [_ ?]; done). apply IH.
  - destruct (neither_undefined_nor_null v) eqn:Hv.
    + rewrite decide_True by done. rewrite IH. unfold params_append.
      by rewrite <-app_assoc.
    + rewrite decide_False by (intros [? _]; done). apply IH.
Qed.

(** In browser mode, a mapped command is dispatched by sending the prepared
    request; of the heap only the new working copy differs. *)
Lemma request_browser (e : env) cmd args (w : world) m :
  isTauri e = false -> COMMAND_MAPPING !! cmd = Some m ->
  request e cmd args w =
    send e cmd (prepared m (bag w args) (sessionStorage w !! "abv_admin_api_key"))
      (after_copy m args w).
Proof.
  intros Ht Hm. unfold request, COMMAND_MAPPING_get. rewrite Ht, Hm. cbn zeta.
  destruct args as [l|]; [|by destruct m as [u []]].
  unfold mbind, M_bind, bind, read, spread, getItem, mret, M_ret, ret.
  cbn [fst snd heap sessionStorage].
  set (b := fresh (dom (heap w))).
  set (o := default [] (heap w !! l)).
  change {| heap := <[b:=o]> (heap w); sessionStorage := _; lastAuthErrorTime := _;
            events := _; console := _; fetched := _ |}
    with (with_heap w (<[b:=o]> (heap w))).
  set (r := run_substitution o (Object_keys o) (url m)).
  assert (Hfresh : heap w !! b = None).
  { apply not_elem_of_dom. apply is_fresh. }
  assert (Ho : default [] (<[b:=o]> (heap w) !! l) = o).
  { destruct (decide (l = b)) as [->|Hlb]; [by rewrite lookup_insert_eq|].
    by rewrite lookup_insert_ne. }
  assert (Hloop : forEach (Object_keys o) (substitute l (Some b)) (url m)
                    (with_heap w (<[b:=o]> (heap w))) =
                  (Ok r.1, with_heap w (<[b := filter (fun kv => kv.1 ∉ r.2) o]> (heap w)))).
  { destruct (decide (l = b)) as [->|Hlb].
    - assert (o = []) as Hnil by (subst o; by rewrite Hfresh).
      subst r. rewrite Hnil. simpl. done.
    - pose proof (forEach_substitute l b (Object_keys o) (url m)
                    (with_heap w (<[b:=o]> (heap w))) o Hlb) as Hf.
      cbn [heap with_heap] in Hf. rewrite lookup_insert_eq, lookup_insert_ne in Hf by done.
      fold o in Hf. rewrite (Hf eq_refl). cbn zeta. fold r.
      by rewrite insert_insert_eq. }
  rewrite Ho, Hloop.
  set (copy := filter (fun kv => kv.1 ∉ r.2) o).
  assert (Ho2 : default [] (<[b:=copy]> (heap w) !! l) = o).
  { destruct (decide (l = b)) as [->|Hlb]; [|by rewrite lookup_insert_ne].
    rewrite lookup_insert_eq. simpl. subst copy o. by rewrite Hfresh. }
  unfold prepared, after_copy, bag, substituted_url, body_use_copy, consumed_keys.
  fold o. fold r. fold copy.
  destruct (bool_decide (method m = GET) || bool_decide (method m = DELETE)).
  - cbn [with_heap heap sessionStorage]. rewrite Ho2, forEach_add_param. done.
  - destruct (bool_decide (method m = POST) || bool_decide (method m = PATCH)).
    + cbn [with_heap heap sessionStorage]. rewrite lookup_insert_eq. done.
    + done.
Qed.

End DispatchFacts.

Section SendFacts.

Context {num : Type} `{JSNumber num}.

Abbreviation value := (value num).
Abbreviation world := (world num).
Abbreviation env := (env num).

Ltac run_send :=
  unfold send, try_catch, mbind, M_bind, bind, do_fetch, get_lastAuthErrorTime,
    set_lastAuthErrorTime, dispatchEvent, parse, get_error, console_log, throw,
    mret, M_ret, ret;
  cbn [fst snd heap sessionStorage lastAuthErrorTime events console fetched].

(** Every path through [send], in the order the code takes its decisions. *)
Ltac send_cases e r :=
  run_send;
  let resp := fresh "resp" in
  destruct (fetch e r) as [?|resp] eqn:?;
  [ simpl; try done
  | simpl; destruct (ok resp) eqn:?;
    [ simpl; destruct (status resp =? 204)%N eqn:?;
      [ simpl; try done
      | simpl; destruct (nonempty (body_text resp)) eqn:?;
        [ simpl; destruct (JSON_parse e (body_text resp)) eqn:?; simpl; try done
        | simpl; try done ] ]
    | simpl; destruct (negb (isTauri e) && (status resp =? 401)%N) eqn:?;
      [ simpl; destruct (_ >? _)%Z eqn:?; simpl;
        destruct (JSON_parse e (body_text resp)) as [[]|] eqn:?; simpl; try done
      | simpl; destruct (JSON_parse e (body_text resp)) as [[]|] eqn:?; simpl; try done ] ] ].

Lemma send_fetched (e : env) cmd r (w : world) : fetched (send e cmd r w).2 = fetched w ++ [r].
Proof. send_cases e r. Qed.

Lemma send_heap (e : env) cmd r (w : world) : heap (send e cmd r w).2 = heap w.
Proof. send_cases e r. Qed.

(** A response that is [ok] resolves the call. *)
Lemma send_ok (e : env) cmd r (w : world) resp :
  fetch e r = FetchResponds resp -> ok resp = true ->
  (send e cmd r w).1 =
    Ok (if (status resp =? 204)%N then VNull
        else if nonempty (body_text resp)
             then match JSON_parse e (body_text resp) with
                  | Some v => v
                  | None => VStr (body_text resp)
                  end
             else VNull).
Proof.
  intros Hf Hok. send_cases e r; simplify_eq; try congruence;
    repeat match goal with Hx : _ = _ |- _ => rewrite Hx end; done.
Qed.

(** A response that is not [ok] rejects it. *)
Lemma send_not_ok (e : env) cmd r (w : world) resp :
  fetch e r = FetchResponds resp -> ok resp = false ->
  (send e cmd r w).1 =
    match default (VObj []) (JSON_parse e (body_text resp)) with
    | VUndefined | VNull => Throw ThrowTypeError
    | VObj props =>
        Throw (ThrowValue (if truthy (get props "error") then get props "error"
                           else http_error resp))
    | _ => Throw (ThrowValue (http_error resp))
    end.
Proof.
  intros Hf Hok. send_cases e r; simplify_eq; try congruence;
    repeat match goal with Hx : JSON_parse _ _ = _ |- _ => rewrite Hx end; done.
Qed.

(** The session-expired event and its timestamp. *)
Lemma send_events (e : env) cmd r (w : world) resp :
  isTauri e = false -> fetch e r = FetchResponds resp ->
  let emits := negb (ok resp) && (status resp =? 401)%N
               && (Date_now e - last_emission w >? 2000)%Z in
  events (send e cmd r w).2 = events w ++ (if emits then [unauthorized] else [])
  /\ lastAuthErrorTime (send e cmd r w).2 =
       if emits then Some (Date_now e) else lastAuthErrorTime w.
Proof.
  intros Ht Hf. cbn zeta. unfold last_emission.
  send_cases e r; simplify_eq; try congruence;
    try rewrite Ht in *; simpl in *;
    repeat match goal with Hx : _ = _ |- _ => rewrite Hx end; simpl;
    rewrite ?app_nil_r; try done.
Qed.

Lemma after_copy_fetched m args (w : world) : fetched (after_copy m args w) = fetched w.
Proof. by destruct args. Qed.

Lemma after_copy_events m args (w : world) :
  events (after_copy m args w) = events w
  /\ lastAuthErrorTime (after_copy m args w) = lastAuthErrorTime w.
Proof. by destruct args. Qed.

(** A mapped command makes exactly one call to [fetch], with the prepared
    request. *)
Lemma request_sends (e : env) cmd args (w : world) m :
  isTauri e = false -> COMMAND_MAPPING !! cmd = Some m ->
  sends e cmd args w (prepared m (bag w args) (sessionStorage w !! "abv_admin_api_key")).
Proof.
  intros Ht Hm. unfold sends. rewrite (request_browser e cmd args w m Ht Hm).
  by rewrite send_fetched, after_copy_fetched.
Qed.

Lemma request_unmapped (e : env) cmd args (w : world) :
  isTauri e = false -> COMMAND_MAPPING_get cmd = Missing ->
  (request e cmd args w).1 =
    Throw (ThrowError ("Command [" +:+ cmd +:+ "] not supported in Web mode."))
  /\ fetched (request e cmd args w).2 = fetched w
  /\ heap (request e cmd args w).2 = heap w.
Proof. intros Ht Hm. unfold request. by rewrite Ht, Hm. Qed.

Lemma request_native (e : env) cmd args (w : world) :
  isTauri e = true ->
  fetched (request e cmd args w).2 = fetched w /\ heap (request e cmd args w).2 = heap w.
Proof.
  intros Ht. unfold request. rewrite Ht.
  unfold try_catch, mbind, M_bind, bind, read, console_log, throw, mret, M_ret, ret.
  destruct args; cbn [fst snd]; destruct (invoke e cmd _); done.
Qed.

(** A command name that only [Object.prototype] defines passes the guard for
    unmapped commands: with a bag that has a key the dispatch throws a
    TypeError, otherwise it calls [fetch]. *)
Lemma request_inherited (e : env) cmd args (w : world) :
  isTauri e = false -> COMMAND_MAPPING_get cmd = Inherited ->
  exists w0,
    events w0 = events w /\ lastAuthErrorTime w0 = lastAuthErrorTime w
    /\ fetched w0 = fetched w
    /\ (forall l, is_Some (heap w !! l) -> heap w0 !! l = heap w !! l)
    /\ match bag w args with
       | Some (_ :: _) => request e cmd args w = (Throw ThrowTypeError, w0)
       | _ =>
           request e cmd args w =
             send e cmd
               {| req_url := "undefined"; req_method := GET;
                  req_headers := content_type
                                   :: auth_headers (sessionStorage w !! "abv_admin_api_key");
                  req_body := None |} w0
       end.
Proof.
  intros Ht Hm. unfold request. rewrite Ht, Hm.
  destruct args as [l|]; [|by exists w].
  unfold mbind, M_bind, bind, read, spread, getItem, throw, mret, M_ret, ret.
  cbn [fst snd heap sessionStorage bag].
  set (b := fresh (dom (heap w))).
  set (o := default [] (heap w !! l)).
  change {| heap := <[b:=o]> (heap w); sessionStorage := _; lastAuthErrorTime := _;
            events := _; console := _; fetched := _ |}
    with (with_heap w (<[b:=o]> (heap w))).
  assert (Hfresh : heap w !! b = None).
  { apply not_elem_of_dom. apply is_fresh. }
  assert (Ho : default [] (<[b:=o]> (heap w) !! l) = o).
  { destruct (decide (l = b)) as [->|Hlb]; [by rewrite lookup_insert_eq|].
    by rewrite lookup_insert_ne. }
  rewrite Ho. exists (with_heap w (<[b:=o]> (heap w))).
  repeat split; try done.
  - intros l' Hsome. cbn [with_heap heap]. apply lookup_insert_ne.
    intros <-. rewrite Hfresh in Hsome. by destruct Hsome.
  - by destruct o.
Qed.

(** Whoever made a call to [fetch] went on with [send], in a world with the
    events and the time stamp it started with. *)
Lemma sends_is_send (e : env) cmd args (w : world) r :
  sends e cmd args w r ->
  exists w0, request e cmd args w = send e cmd r w0
    /\ events w0 = events w /\ lastAuthErrorTime w0 = lastAuthErrorTime w.
Proof.
  unfold sends. intros Hs.
  assert (Hlen : fetched w ++ [r] <> fetched w).
  { intros Heq. apply (f_equal length) in Heq. rewrite length_app in Heq. simpl in Heq. lia. }
  destruct (isTauri e) eqn:Ht.
  { destruct (request_native e cmd args w Ht) as [Hf _]. congruence. }
  destruct (COMMAND_MAPPING_get cmd) as [m| |] eqn:Hget.
  - assert (Hm : COMMAND_MAPPING !! cmd = Some m).
    { unfold COMMAND_MAPPING_get in Hget.
      destruct (COMMAND_MAPPING !! cmd); [congruence|]. by destruct (bool_decide _). }
    pose proof (request_sends e cmd args w m Ht Hm) as Hs'. unfold sends in Hs'.
    rewrite Hs in Hs'. apply app_inv_head in Hs' as [= ->].
    exists (after_copy m args w). split; [by apply request_browser|].
    apply after_copy_events.
  - destruct (request_inherited e cmd args w Ht Hget) as (w0 & E1 & E2 & E3 & _ & Hreq).
    destruct (bag w args) as [[|kv o]|].
    + rewrite Hreq, send_fetched, E3 in Hs. apply app_inv_head in Hs as [= <-]. by exists w0.
    + rewrite Hreq in Hs. cbn [snd] in Hs. congruence.
    + rewrite Hreq, send_fetched, E3 in Hs. apply app_inv_head in Hs as [= <-]. by exists w0.
  - destruct (request_unmapped e cmd args w Ht Hget) as (_ & Hf & _). congruence.
Qed.

End SendFacts.

(** * The claims *)

Section Claims.

Context {num : Type} `{JSNumber num}.

Abbreviation value := (value num).
Abbreviation world := (world num).
Abbreviation env := (env num).

Lemma prepared_headers m (o : option (object num)) k :
  req_headers (prepared m o k) = content_type :: auth_headers k
  /\ req_method (prepared m o k) = method m.
Proof.
  unfold prepared.
  destruct (if bool_decide (method m = GET) || bool_decide (method m = DELETE) then o else None);
    [done|].
  by destruct (if bool_decide (method m = POST) || bool_decide (method m = PATCH) then o else None).
Qed.

Lemma request_events (e : env) cmd args (w : world) r resp :
  isTauri e = false -> receives e cmd args w r resp ->
  let emits := negb (ok resp) && (status resp =? 401)%N
               && (Date_now e - last_emission w >? 2000)%Z in
  events (request e cmd args w).2 = events w ++ (if emits then [unauthorized] else [])
  /\ lastAuthErrorTime (request e cmd args w).2 =
       if emits then Some (Date_now e) else lastAuthErrorTime w.
Proof.
  intros Ht [Hs Hf]. destruct (sends_is_send e cmd args w r Hs) as (w0 & -> & E1 & E2).
  pose proof (send_events e cmd r w0 resp Ht Hf) as He.
  cbn zeta in He. unfold last_emission in *. by rewrite E1, E2 in He.
Qed.

(** C2. In browser mode a GET or DELETE route sends no body, whatever the
    argument bag is, and its URL is the substituted URL followed by the query
    parameters the specification describes: the entries of the original bag
    in key order, without those whose value is undefined or null and without
    those whose URL-encoded string value occurs in the substituted URL (no
    question mark when none is left). Dispatching [fetch_account_quota] with
    the bag accountId: "abc123", extra: "x" requests
    GET /api/accounts/abc123/quota?extra=x. *)
Theorem get_delete_query (e : env) cmd args (w : world) m :
  isTauri e = false -> COMMAND_MAPPING !! cmd = Some m ->
  method m = GET \/ method m = DELETE ->
  exists r, sends e cmd args w r
    /\ req_method r = method m
    /\ req_body r = None
    /\ req_url r =
         (let u := substituted_url (url m) (bag w args) in
          match bag w args with
          | Some o =>
              match spec_query_params o u with
              | [] => u
              | _ :: _ => u +:+ "?" +:+ params_toString (spec_query_params o u)
              end
          | None => u
          end)
    /\ (cmd = "fetch_account_quota" ->
        bag w args = Some [("accountId", VStr "abc123"); ("extra", VStr "x")] ->
        req_method r = GET /\ req_url r = "/api/accounts/abc123/quota?extra=x").
Proof.
  intros Ht Hm Hverb.
  exists (prepared m (bag w args) (sessionStorage w !! "abv_admin_api_key")).
  split; [by apply request_sends|].
  split; [apply prepared_headers|].
  assert (Hb : bool_decide (method m = GET) || bool_decide (method m = DELETE) = true).
  { destruct Hverb as [-> | ->]; done. }
  assert (Hp : bool_decide (method m = POST) || bool_decide (method m = PATCH) = false).
  { destruct Hverb as [-> | ->]; done. }
  assert (Hgen : req_body (prepared m (bag w args) (sessionStorage w !! "abv_admin_api_key")) = None
    /\ req_url (prepared m (bag w args) (sessionStorage w !! "abv_admin_api_key")) =
         (let u := substituted_url (url m) (bag w args) in
          match bag w args with
          | Some o =>
              match spec_query_params o u with
              | [] => u
              | _ :: _ => u +:+ "?" +:+ params_toString (spec_query_params o u)
              end
          | None => u
          end)).
  { unfold prepared. rewrite Hb, Hp. destruct (bag w args) as [o|]; [|done].
    cbn [req_body req_url]. split; [done|]. cbn zeta.
    unfold Object_entries. rewrite run_query_spec, app_nil_l.
    set (ps := spec_query_params o _).
    destruct ps as [|p ps'] eqn:Eps; [done|].
    unfold nonempty. destruct (String.eqb _ _) eqn:Eq; [|done].
    apply String.eqb_eq, params_toString_empty in Eq. done. }
  destruct Hgen as [Hbody Hurl]. split; [done|]. split; [done|].
  intros -> Hbag.
  assert (m = {| url := "/api/accounts/:accountId/quota"; method := GET |}) as ->.
  { assert (COMMAND_MAPPING !! "fetch_account_quota"
            = Some {| url := "/api/accounts/:accountId/quota"; method := GET |}) as Hl
      by (vm_compute; reflexivity).
    congruence. }
  split; [apply prepared_headers|]. rewrite Hurl, Hbag. vm_compute. reflexivity.
Qed.

(** C4. In browser mode, a command of the route table that is dispatched with
    a bag holding a key for every placeholder of its URL template is sent
    with the verb of its table entry, and the URL that is sent holds no
    placeholder: it holds no colon at all. *)
Theorem placeholders_resolved (e : env) cmd args (w : world) m :
  isTauri e = false -> COMMAND_MAPPING !! cmd = Some m ->
  (forall n, n ∈ placeholder_names (url m) ->
     exists o, bag w args = Some o /\ n ∈ Object_keys o) ->
  exists r, sends e cmd args w r
    /\ req_method r = method m
    /\ placeholder_names (req_url r) = []
    /\ has_char ":" (req_url r) = false.
Proof.
  intros Ht Hm Hkeys.
  exists (prepared m (bag w args) (sessionStorage w !! "abv_admin_api_key")).
  split; [by apply request_sends|].
  split; [apply prepared_headers|].
  assert (Hno : has_char ":" (req_url (prepared m (bag w args)
                  (sessionStorage w !! "abv_admin_api_key"))) = false);
    [|split; [by apply placeholder_names_no_colon|done]].
  pose proof (COMMAND_MAPPING_regular cmd m Hm) as Hreg.
  assert (Hu : has_char ":" (substituted_url (url m) (bag w args)) = false).
  { destruct (bag w args) as [o|] eqn:Hbag.
    - apply regular_substituted; [done|].
      intros n Hn. destruct (Hkeys n Hn) as (o' & [= <-] & Hin). done.
    - simpl. apply regular_spec in Hreg as (Htags & _). cbn zeta in Htags.
      destruct (placeholder_names (url m)) as [|n ns] eqn:En.
      + by apply (tags_nil []).
      + destruct (Hkeys n) as (o' & [=] & _). by left. }
  unfold prepared.
  destruct (bag w args) as [o|]; [|by destruct (_ || _), (_ || _)].
  destruct (bool_decide (method m = GET) || bool_decide (method m = DELETE)).
  - cbn [req_url]. destruct (nonempty _); [|done].
    by rewrite !has_char_app, Hu, params_toString_no_colon.
  - by destruct (bool_decide (method m = POST) || bool_decide (method m = PATCH)).
Qed.

(** C5 (the code departs from the claim). In browser mode, a command that
    neither the route table nor [Object.prototype] defines is rejected with
    an error that names the command, and no call to [fetch] is made. The name
    [constructor] is not in the route table either, yet its dispatch passes
    the guard for unmapped commands, because the property read finds the
    function that [Object.prototype] holds under that name: dispatched
    without a bag it is not rejected before the network is reached, [fetch]
    is called with the URL "undefined". *)
Theorem inherited_name_is_fetched (e : env) (w : world) :
  isTauri e = false ->
  COMMAND_MAPPING !! "constructor" = None
  /\ sends e "constructor" None w
       {| req_url := "undefined"; req_method := GET;
          req_headers := content_type
                           :: auth_headers (sessionStorage w !! "abv_admin_api_key");
          req_body := None |}
  /\ (forall cmd args, COMMAND_MAPPING_get cmd = Missing ->
      (request e cmd args w).1 =
        Throw (ThrowError ("Command [" +:+ cmd +:+ "] not supported in Web mode."))
      /\ fetched (request e cmd args w).2 = fetched w).
Proof.
  intros Ht. split; [by vm_compute|]. split.
  - assert (Hget : COMMAND_MAPPING_get "constructor" = Inherited) by (by vm_compute).
    destruct (request_inherited e "constructor" None w Ht Hget)
      as (w0 & _ & _ & Hf & _ & Hreq).
    cbn [bag] in Hreq. unfold sends. by rewrite Hreq, send_fetched, Hf.
  - intros cmd args Hm.
    destruct (request_unmapped e cmd args w Ht Hm) as (Hr & Hf & _). done.
Qed.

(** C7. In browser mode, a dispatch that receives a 2xx response resolves: to
    null when the status is 204 or the body is empty, to the parsed value
    when the non-empty body parses as JSON, and to the text of the body
    when it does not. *)
Theorem success_normalization (e : env) cmd args (w : world) r resp :
  isTauri e = false -> receives e cmd args w r resp -> ok resp = true ->
  exists v, (request e cmd args w).1 = Ok v
    /\ (status resp = 204%N \/ body_text resp = EmptyString -> v = VNull)
    /\ (status resp <> 204%N -> body_text resp <> EmptyString ->
        forall parsed, JSON_parse e (body_text resp) = Some parsed -> v = parsed)
    /\ (status resp <> 204%N -> body_text resp <> EmptyString ->
        JSON_parse e (body_text resp) = None -> v = VStr (body_text resp)).
Proof.
  intros Ht [Hs Hf] Hok. destruct (sends_is_send e cmd args w r Hs) as (w0 & -> & _).
  rewrite (send_ok e cmd _ _ resp Hf Hok). eexists. split; [done|].
  unfold nonempty.
  destruct (N.eqb_spec (status resp) 204) as [E|E];
    destruct (String.eqb_spec (body_text resp) EmptyString) as [Eb|Eb]; cbn [negb];
    (split; [by intros [?|?] | split; [intros ? ? parsed Hp | intros ? ? Hp]]);
    try done; by rewrite Hp.
Qed.

(** C8. In browser mode a 401 response emits [abv-unauthorized] exactly when
    more than 2000ms have passed since the last emission, the time of which
    is kept in the world. Hence, of two 401 responses the first of which
    emits, the second emits as well when it comes more than 2000ms later
    (2100ms, say), and does not when it comes within 2000ms. *)
Theorem unauthorized_debounce (e1 e2 : env) cmd1 cmd2 args1 args2 (w : world)
    r1 r2 resp1 resp2 :
  let w1 := (request e1 cmd1 args1 w).2 in
  let w2 := (request e2 cmd2 args2 w1).2 in
  isTauri e1 = false -> isTauri e2 = false ->
  receives e1 cmd1 args1 w r1 resp1 -> status resp1 = 401%N ->
  receives e2 cmd2 args2 w1 r2 resp2 -> status resp2 = 401%N ->
  events w1 = events w ++
    (if (Date_now e1 - last_emission w >? 2000)%Z then [unauthorized] else [])
  /\ events w2 = events w1 ++
    (if (Date_now e2 - last_emission w1 >? 2000)%Z then [unauthorized] else [])
  /\ ((Date_now e1 - last_emission w > 2000)%Z ->
      ((Date_now e2 - Date_now e1 <= 2000)%Z -> events w2 = events w ++ [unauthorized])
      /\ ((Date_now e2 - Date_now e1 > 2000)%Z ->
          events w2 = events w ++ [unauthorized; unauthorized])
      /\ (Date_now e2 = (Date_now e1 + 2100)%Z ->
          events w2 = events w ++ [unauthorized; unauthorized])).
Proof.
  intros w1 w2 Ht1 Ht2 Hr1 Hs1 Hr2 Hs2.
  assert (Hok : forall resp, status resp = 401%N ->
            negb (ok resp) && (status resp =? 401)%N = true).
  { intros resp E. unfold ok. by rewrite E. }
  destruct (request_events e1 cmd1 args1 w r1 resp1 Ht1 Hr1) as [E1 L1].
  destruct (request_events e2 cmd2 args2 w1 r2 resp2 Ht2 Hr2) as [E2 L2].
  cbn zeta in *. rewrite (Hok _ Hs1) in E1, L1. rewrite (Hok _ Hs2) in E2, L2.
  cbn [andb] in *. fold w1 in E1, L1. fold w2 in E2, L2.
  split; [done|]. split; [done|].
  intros Hfirst.
  assert (Hgt : (Date_now e1 - last_emission w >? 2000)%Z = true) by lia.
  rewrite Hgt in E1, L1.
  assert (Hlast : last_emission w1 = Date_now e1) by (unfold last_emission; by rewrite L1).
  rewrite Hlast in E2. rewrite E2, E1, <-app_assoc.
  repeat split.
  - intros Hd. assert ((Date_now e2 - Date_now e1 >? 2000)%Z = false) as -> by lia. done.
  - intros Hd. assert ((Date_now e2 - Date_now e1 >? 2000)%Z = true) as -> by lia. done.
  - intros Hd. assert ((Date_now e2 - Date_now e1 >? 2000)%Z = true) as -> by lia. done.
Qed.

(** C10. A dispatch leaves every object the caller holds as it was, the
    argument bag among them: in browser mode the consumed keys are removed
    from a working copy, which is another object of the heap. *)
Theorem caller_bag_unchanged (e : env) cmd l (w : world) o :
  heap w !! l = Some o ->
  let w' := (request e cmd (Some l) w).2 in
  heap w' !! l = Some o
  /\ (forall l', is_Some (heap w !! l') -> heap w' !! l' = heap w !! l')
  /\ (isTauri e = false -> forall m, COMMAND_MAPPING !! cmd = Some m ->
      exists b, b <> l /\ heap w !! b = None
        /\ heap w' !! b = Some (body_use_copy (url m) o)).
Proof.
  intros Hl w'.
  assert (Hfresh : heap w !! fresh (dom (heap w)) = None).
  { apply not_elem_of_dom. apply is_fresh. }
  assert (Hbrowser : isTauri e = false -> forall m, COMMAND_MAPPING !! cmd = Some m ->
            heap w' = <[fresh (dom (heap w)) := body_use_copy (url m) o]> (heap w)).
  { intros Ht m Hm. subst w'. rewrite (request_browser e cmd (Some l) w m Ht Hm).
    rewrite send_heap. cbn [after_copy with_heap heap]. by rewrite Hl. }
  assert (Hframe : forall l', is_Some (heap w !! l') -> heap w' !! l' = heap w !! l').
  { intros l' Hsome. destruct (isTauri e) eqn:Ht.
    { subst w'. destruct (request_native e cmd (Some l) w Ht) as [_ ->]. done. }
    destruct (COMMAND_MAPPING_get cmd) as [m| |] eqn:Hget.
    - assert (Hm : COMMAND_MAPPING !! cmd = Some m).
      { unfold COMMAND_MAPPING_get in Hget.
        destruct (COMMAND_MAPPING !! cmd); [congruence|]. by destruct (bool_decide _). }
      rewrite (Hbrowser eq_refl m Hm). apply lookup_insert_ne.
      intros <-. rewrite Hfresh in Hsome. by destruct Hsome.
    - subst w'.
      destruct (request_inherited e cmd (Some l) w Ht Hget) as (w0 & _ & _ & _ & Hh & Hreq).
      destruct (bag w (Some l)) as [[|kv o']|]; rewrite Hreq, ?send_heap; by apply Hh.
    - subst w'. destruct (request_unmapped e cmd (Some l) w Ht Hget) as (_ & _ & ->). done. }
  split; [by rewrite Hframe|]. split; [done|].
  intros Ht m Hm. exists (fresh (dom (heap w))). repeat split; [|done|].
  - intros E. rewrite E in Hfresh. congruence.
  - rewrite (Hbrowser Ht m Hm). apply lookup_insert_eq.
Qed.

End Claims.

Section MoreClaims.

Context {num : Type} `{JSNumber num}.

Abbreviation value := (value num).
Abbreviation world := (world num).
Abbreviation env := (env num).

(** A key consumed by path substitution is not a key of the body-use copy. *)
Lemma consumed_key_not_in_body_copy t (o : object num) k :
  k ∈ consumed_keys t o -> k ∉ Object_keys (body_use_copy t o).
Proof.
  unfold body_use_copy, Object_keys. intros Hk Hin.
  apply list_elem_of_fmap in Hin as ([k' v] & -> & Hin).
  apply list_elem_of_filter in Hin as [Hn _]. done.
Qed.

(** Nor is it a query parameter, as long as the value substituted for it
    still occurs in the URL when the query is built. *)
Lemma consumed_key_not_in_query (o : object num) u k v :
  (k, v) ∈ o -> includes u (encodeURIComponent (ToString v)) = true ->
  NoDup (Object_keys o) ->
  k ∉ (spec_query_params o u).*1.
Proof.
  unfold spec_query_params, Object_keys. intros Hkv Hinc Hnd Hin.
  apply list_elem_of_fmap in Hin as ([k' s'] & -> & Hin).
  apply list_elem_of_fmap in Hin as ([k'' v''] & Heq & Hin).
  apply list_elem_of_filter in Hin as [[_ Hout] Hin]. cbn [fst snd] in *.
  injection Heq as -> _.
  assert (v'' = v) as ->; [|congruence].
  clear Hout Hinc. induction o as [|[k0 v0] o IH]; [by apply elem_of_nil in Hin|].
  rewrite fmap_cons in Hnd. apply NoDup_cons in Hnd as [Hfresh Hnd]. cbn [fst] in Hfresh.
  apply elem_of_cons in Hin as [Hin|Hin]; apply elem_of_cons in Hkv as [Hkv|Hkv].
  - congruence.
  - exfalso. apply Hfresh. injection Hin as <- _.
    apply list_elem_of_fmap. by exists (k'', v).
  - exfalso. apply Hfresh. injection Hkv as <- _.
    apply list_elem_of_fmap. by exists (k'', v'').
  - by apply IH.
Qed.

(** C1 (the code departs from the claim). Dispatching [delete_device_version]
    with the bag versionId: "abc", "accountId/device-versions/a": "Z"
    consumes the key versionId by path substitution; the second key then
    replaces a stretch of the URL that takes in the start of the substituted
    value, so the value no longer occurs in the URL and the query loop sends
    the consumed key again: DELETE /api/accounts/Zbc?versionId=abc. *)
Theorem consumed_key_reaches_query (e : env) args (w : world) :
  isTauri e = false ->
  bag w args = Some [("versionId", VStr "abc"); ("accountId/device-versions/a", VStr "Z")] ->
  exists r, sends e "delete_device_version" args w r
    /\ "versionId" ∈ consumed_keys "/api/accounts/:accountId/device-versions/:versionId"
                       [("versionId", @VStr num "abc");
                        ("accountId/device-versions/a", VStr "Z")]
    /\ req_method r = DELETE
    /\ req_url r = "/api/accounts/Zbc?versionId=abc"
    /\ query_of (req_url r) = "versionId=abc".
Proof.
  intros Ht Hbag.
  set (m := {| url := "/api/accounts/:accountId/device-versions/:versionId";
               method := DELETE |}).
  assert (Hm : COMMAND_MAPPING !! "delete_device_version" = Some m)
    by (vm_compute; reflexivity).
  exists (prepared m (bag w args) (sessionStorage w !! "abv_admin_api_key")).
  split; [by apply request_sends|].
  rewrite Hbag. generalize (sessionStorage w !! "abv_admin_api_key"). intros k.
  split; [vm_compute; apply elem_of_cons; by left|].
  split; [apply prepared_headers|].
  split; vm_compute; reflexivity.
Qed.

(** C3 (amended). In browser mode, for a POST or PATCH route and a bag that
    is present, the JSON body is the serialized [request] value of the
    body-use copy (the bag minus the path-consumed keys) when that value is
    not undefined, the sibling keys being left out, and the serialized
    body-use copy otherwise, also when the copy holds a [request] key whose
    value is undefined. Dispatching [switch_account] with the bag
    accountId: "abc123" sends POST /api/accounts/switch with the body
    {"accountId":"abc123"}. *)
Theorem post_patch_body (e : env) cmd args (w : world) m o :
  isTauri e = false -> COMMAND_MAPPING !! cmd = Some m ->
  method m = POST \/ method m = PATCH ->
  bag w args = Some o ->
  let copy := body_use_copy (url m) o in
  exists r, sends e cmd args w r
    /\ req_method r = method m
    /\ req_url r = substituted_url (url m) (Some o)
    /\ (get copy "request" <> VUndefined -> req_body r = JSON_stringify (get copy "request"))
    /\ (get copy "request" = VUndefined -> req_body r = JSON_stringify (VObj copy))
    /\ (cmd = "switch_account" -> o = [("accountId", VStr "abc123")] ->
        req_method r = POST /\ req_url r = "/api/accounts/switch"
        /\ req_body r = Some ("{" +:+ Fixtures.quoted "accountId" +:+ ":"
                                +:+ Fixtures.quoted "abc123" +:+ "}")).
Proof.
  intros Ht Hm Hverb Hbag copy.
  exists (prepared m (bag w args) (sessionStorage w !! "abv_admin_api_key")).
  split; [by apply request_sends|].
  split; [apply prepared_headers|].
  rewrite Hbag. generalize (sessionStorage w !! "abv_admin_api_key"). intros k.
  assert (Hb : bool_decide (method m = GET) || bool_decide (method m = DELETE) = false).
  { destruct Hverb as [-> | ->]; done. }
  assert (Hp : bool_decide (method m = POST) || bool_decide (method m = PATCH) = true).
  { destruct Hverb as [-> | ->]; done. }
  assert (Hgen : req_url (prepared m (Some o) k) = substituted_url (url m) (Some o)
            /\ req_body (prepared m (Some o) k) =
                 JSON_stringify (if is_defined (get copy "request")
                                 then get copy "request" else VObj copy)).
  { unfold prepared. rewrite Hb, Hp. done. }
  destruct Hgen as [Hurl Hbody].
  split; [done|]. split; [|split].
  - intros Hdef. rewrite Hbody. by destruct (get copy "request").
  - intros Hundef. rewrite Hbody, Hundef. done.
  - intros -> ->.
    assert (m = {| url := "/api/accounts/switch"; method := POST |}) as ->.
    { assert (COMMAND_MAPPING !! "switch_account"
              = Some {| url := "/api/accounts/switch"; method := POST |}) as Hl
        by (vm_compute; reflexivity).
      congruence. }
    split; [apply prepared_headers|]. split; vm_compute; reflexivity.
Qed.

(** C6 (amended). In browser mode, a dispatch that receives a response
    outside 2xx is rejected. The payload is the parsed body, or the empty
    object when the body does not parse. If the payload is an object whose
    [error] field is truthy, the call is rejected with that field; if the
    field is missing or falsy, or the payload is a boolean, a number, a
    string or an array, it is rejected with the string HTTP Error followed
    by the status code. (A payload that is null is left aside.) A 403
    response whose body parses to the object error: "forbidden" rejects
    the call with the string forbidden. *)
Theorem error_normalization (e : env) cmd args (w : world) r resp :
  isTauri e = false -> receives e cmd args w r resp -> ok resp = false ->
  let payload := default (VObj []) (JSON_parse e (body_text resp)) in
  let rejection := (request e cmd args w).1 in
  (forall props, payload = VObj props -> truthy (get props "error") = true ->
     rejection = Throw (ThrowValue (get props "error")))
  /\ (forall props, payload = VObj props -> truthy (get props "error") = false ->
     rejection = Throw (ThrowValue (http_error resp)))
  /\ (match payload with
      | VBool _ | VNum _ | VStr _ | VArr _ => rejection = Throw (ThrowValue (http_error resp))
      | _ => True
      end)
  /\ (JSON_parse e (body_text resp) = None -> rejection = Throw (ThrowValue (http_error resp)))
  /\ (status resp = 403%N ->
      JSON_parse e (body_text resp) = Some (VObj [("error", VStr "forbidden")]) ->
      rejection = Throw (ThrowValue (VStr "forbidden"))).
Proof.
  intros Ht [Hs Hf] Hok payload rejection.
  destruct (sends_is_send e cmd args w r Hs) as (w0 & Hreq & _).
  assert (Hrej : rejection =
            match payload with
            | VUndefined | VNull => Throw ThrowTypeError
            | VObj props =>
                Throw (ThrowValue (if truthy (get props "error") then get props "error"
                                   else http_error resp))
            | _ => Throw (ThrowValue (http_error resp))
            end).
  { subst rejection payload. rewrite Hreq. by apply send_not_ok. }
  repeat split.
  - intros props Hp Htr. by rewrite Hrej, Hp, Htr.
  - intros props Hp Htr. by rewrite Hrej, Hp, Htr.
  - rewrite Hrej. by destruct payload.
  - intros Hnone. rewrite Hrej. subst payload. by rewrite Hnone.
  - intros _ Hp. rewrite Hrej. subst payload. by rewrite Hp.
Qed.

(** C9 (amended). In browser mode every dispatch of a mapped command reads
    the credential from the session storage as it is at the time of the
    call. If a non-empty token is stored, the request carries both the
    [Authorization] header with the bearer token and the [x-api-key] header;
    if none is stored, or the empty string is, the request is sent all the
    same and carries neither. *)
Theorem credential_headers (e : env) cmd args (w : world) m :
  isTauri e = false -> COMMAND_MAPPING !! cmd = Some m ->
  exists r, sends e cmd args w r
    /\ (forall token, sessionStorage w !! "abv_admin_api_key" = Some token ->
        token <> EmptyString ->
        req_headers r = [content_type; ("Authorization", "Bearer " +:+ token);
                         ("x-api-key", token)])
    /\ (sessionStorage w !! "abv_admin_api_key" = None
        \/ sessionStorage w !! "abv_admin_api_key" = Some EmptyString ->
        req_headers r = [content_type]).
Proof.
  intros Ht Hm.
  exists (prepared m (bag w args) (sessionStorage w !! "abv_admin_api_key")).
  split; [by apply request_sends|].
  destruct (prepared_headers m (bag w args) (sessionStorage w !! "abv_admin_api_key"))
    as [-> _].
  split.
  - intros token -> Hne. unfold auth_headers, nonempty.
    destruct (String.eqb_spec token EmptyString); done.
  - intros [-> | ->]; done.
Qed.

End MoreClaims.

(** * The claims on sample dispatches *)

Section Samples.

Import Fixtures.

(** C3 as stated fails: the body-use copy holds a [request] key, with the
    value undefined, and the body is not the serialized [request] value (which
    would be no body at all) but the serialized copy with its sibling key. *)
Lemma request_key_undefined_counterexample :
  ~ (forall (e : env Z) cmd args (w : world Z) m o v,
       isTauri e = false -> COMMAND_MAPPING !! cmd = Some m ->
       method m = POST \/ method m = PATCH ->
       bag w args = Some o ->
       ("request", v) ∈ body_use_copy (url m) o ->
       exists r, sends e cmd args w r /\ req_body r = JSON_stringify v).
Proof.
  intros Hclaim.
  destruct (Hclaim (browser 0 200 EmptyString) "switch_account" (Some 1%positive)
              (start undefined_request_bag None)
              {| url := "/api/accounts/switch"; method := POST |}
              undefined_request_bag VUndefined)
    as (r & Hs & Hbody); [done|by vm_compute|by left|by vm_compute| |].
  - vm_compute. apply elem_of_cons. by left.
  - unfold sends in Hs. vm_compute in Hs. injection Hs as <-. vm_compute in Hbody. done.
Qed.

(** C6 as stated fails: the payload has an [error] field, the empty string,
    and the call is not rejected with that field but with the string
    HTTP Error 500. *)
Lemma empty_error_field_counterexample :
  ~ (forall (e : env Z) cmd args (w : world Z) r resp props v,
       isTauri e = false -> receives e cmd args w r resp -> ok resp = false ->
       JSON_parse e (body_text resp) = Some (VObj props) ->
       ("error", v) ∈ props ->
       (request e cmd args w).1 = Throw (ThrowValue v)).
Proof.
  intros Hclaim.
  pose proof (Hclaim (browser 0 500 (error_body EmptyString)) "load_config" None
                (start [] None)
                load_config_request
                {| status := 500; body_text := error_body EmptyString |}
                [("error", VStr EmptyString)] (VStr EmptyString)
                eq_refl) as Hc.
  assert (Hr : (request (browser 0 500 (error_body EmptyString)) "load_config" None
                  (start [] None)).1 = Throw (ThrowValue (VStr "HTTP Error 500")))
    by (vm_compute; reflexivity).
  rewrite Hr in Hc.
  assert (Throw (ThrowValue (VStr "HTTP Error 500"))
          = @Throw Z (value Z) (ThrowValue (VStr EmptyString))) as Habs; [|done].
  apply Hc.
  - split; vm_compute; reflexivity.
  - reflexivity.
  - vm_compute. reflexivity.
  - apply elem_of_cons. by left.
Qed.

(** C9 as stated fails: the session storage holds a token, the empty string,
    and the request carries no authorization header. *)
Lemma empty_token_counterexample :
  ~ (forall (e : env Z) cmd args (w : world Z) m token,
       isTauri e = false -> COMMAND_MAPPING !! cmd = Some m ->
       sessionStorage w !! "abv_admin_api_key" = Some token ->
       exists r, sends e cmd args w r
         /\ ("Authorization", "Bearer " +:+ token) ∈ req_headers r
         /\ ("x-api-key", token) ∈ req_headers r).
Proof.
  intros Hclaim.
  destruct (Hclaim (browser 0 200 EmptyString) "load_config" None
              (start [] (Some EmptyString))
              {| url := "/api/config"; method := GET |} EmptyString)
    as (r & Hs & _ & Hk); [done|by vm_compute|by vm_compute|].
  unfold sends in Hs. vm_compute in Hs. injection Hs as <-. cbn [req_headers] in Hk.
  apply list_elem_of_singleton in Hk. discriminate Hk.
Qed.

(** ** Witnesses *)

Lemma consumed_key_reaches_query_witness :
  exists r, sends (browser 0 204 EmptyString) "delete_device_version" (Some 1%positive)
              (start overlapping_bag None) r
    /\ req_url r = "/api/accounts/Zbc?versionId=abc".
Proof.
  destruct (consumed_key_reaches_query (browser 0 204 EmptyString) (Some 1%positive)
              (start overlapping_bag None))
    as (r & Hs & _ & _ & Hu & _); [reflexivity|vm_compute; reflexivity|].
  exists r. split; assumption.
Defined.

Lemma get_delete_query_witness :
  exists r, sends (browser 0 200 EmptyString) "fetch_account_quota" (Some 1%positive)
              (start quota_bag None) r
    /\ req_method r = GET /\ req_body r = None
    /\ req_url r = "/api/accounts/abc123/quota?extra=x".
Proof.
  destruct (get_delete_query (browser 0 200 EmptyString) "fetch_account_quota"
              (Some 1%positive) (start quota_bag None)
              {| url := "/api/accounts/:accountId/quota"; method := GET |})
    as (r & Hs & Hm & Hb & _ & Hex);
    [reflexivity|vm_compute; reflexivity|left; reflexivity|].
  exists r. destruct Hex as [_ Hu]; [reflexivity|vm_compute; reflexivity|].
  repeat split; assumption.
Defined.

Lemma post_patch_body_witness :
  exists r, sends (browser 0 200 EmptyString) "update_account_label" (Some 1%positive)
              (start wrapped_bag None) r
    /\ req_url r = "/api/accounts/abc123/label"
    /\ req_body r = Some ("{" +:+ quoted "label" +:+ ":" +:+ quoted "work" +:+ "}").
Proof.
  destruct (post_patch_body (browser 0 200 EmptyString) "update_account_label"
              (Some 1%positive) (start wrapped_bag None)
              {| url := "/api/accounts/:accountId/label"; method := POST |} wrapped_bag)
    as (r & Hs & _ & Hu & Hb & _);
    [reflexivity|vm_compute; reflexivity|left; reflexivity|vm_compute; reflexivity|].
  exists r. split; [assumption|]. split; [rewrite Hu; vm_compute; reflexivity|].
  rewrite Hb; [vm_compute; reflexivity|vm_compute; discriminate].
Defined.

Lemma placeholders_resolved_witness :
  exists r, sends (browser 0 204 EmptyString) "delete_device_version" (Some 1%positive)
              (start device_bag None) r
    /\ req_method r = DELETE /\ has_char ":" (req_url r) = false.
Proof.
  destruct (placeholders_resolved (browser 0 204 EmptyString) "delete_device_version"
              (Some 1%positive) (start device_bag None)
              {| url := "/api/accounts/:accountId/device-versions/:versionId";
                 method := DELETE |})
    as (r & Hs & Hm & _ & Hc); [reflexivity|vm_compute; reflexivity| |].
  - intros n Hn. exists device_bag. split; [vm_compute; reflexivity|].
    vm_compute in Hn. vm_compute.
    apply elem_of_cons in Hn as [->|Hn];
      [apply elem_of_cons; right; apply elem_of_cons; left; reflexivity|].
    apply elem_of_cons in Hn as [->|Hn]; [apply elem_of_cons; left; reflexivity|].
    apply elem_of_nil in Hn. destruct Hn.
  - exists r. repeat split; assumption.
Defined.

Lemma inherited_name_is_fetched_witness :
  sends (browser 0 200 EmptyString) "constructor" None (start [] None) inherited_request
  /\ (request (browser 0 200 EmptyString) "format_disk" None (start [] None)).1 =
       Throw (ThrowError "Command [format_disk] not supported in Web mode.").
Proof.
  destruct (inherited_name_is_fetched (browser 0 200 EmptyString) (start [] None))
    as (_ & Hs & Hrest); [reflexivity|].
  split; [exact Hs|].
  destruct (Hrest "format_disk" None) as [Hr _]; [vm_compute; reflexivity|exact Hr].
Defined.

Lemma error_normalization_witness :
  (request (browser 0 403 (error_body "forbidden")) "load_config" None (start [] None)).1 =
    Throw (ThrowValue (VStr "forbidden")).
Proof.
  apply (error_normalization (browser 0 403 (error_body "forbidden")) "load_config" None
           (start [] None) load_config_request
           {| status := 403; body_text := error_body "forbidden" |});
    [reflexivity|split; vm_compute; reflexivity|reflexivity|reflexivity
    |vm_compute; reflexivity].
Defined.

Lemma success_normalization_witness :
  (request (browser 0 200 "pong") "load_config" None (start [] None)).1 = Ok (VStr "pong").
Proof.
  destruct (success_normalization (browser 0 200 "pong") "load_config" None
              (start [] None) load_config_request {| status := 200; body_text := "pong" |})
    as (v & Hv & _ & _ & Htext);
    [reflexivity|split; vm_compute; reflexivity|reflexivity|].
  rewrite Hv. f_equal. apply Htext; [discriminate|discriminate|vm_compute; reflexivity].
Defined.

Lemma unauthorized_debounce_witness :
  events (request (browser 1700000002100 401 EmptyString) "load_config" None
            (request (browser 1700000000000 401 EmptyString) "load_config" None
               (start [] None)).2).2
  = [unauthorized; unauthorized].
Proof.
  destruct (unauthorized_debounce
              (browser 1700000000000 401 EmptyString) (browser 1700000002100 401 EmptyString)
              "load_config" "load_config" None None (start [] None)
              load_config_request load_config_request
              {| status := 401; body_text := EmptyString |}
              {| status := 401; body_text := EmptyString |})
    as (_ & _ & Htwo);
    [reflexivity|reflexivity|split; vm_compute; reflexivity|reflexivity
    |split; vm_compute; reflexivity|reflexivity|].
  destruct Htwo as (_ & _ & Hlater); [reflexivity|].
  apply Hlater. reflexivity.
Defined.

Lemma credential_headers_witness :
  exists r, sends (browser 0 200 EmptyString) "load_config" None
              (start [] (Some "secret")) r
    /\ req_headers r = [content_type; ("Authorization", "Bearer secret");
                        ("x-api-key", "secret")].
Proof.
  destruct (credential_headers (browser 0 200 EmptyString) "load_config" None
              (start [] (Some "secret")) {| url := "/api/config"; method := GET |})
    as (r & Hs & Htoken & _); [reflexivity|vm_compute; reflexivity|].
  exists r. split; [assumption|].
  apply (Htoken "secret"); [vm_compute; reflexivity|discriminate].
Defined.

Lemma caller_bag_unchanged_witness :
  heap (request (browser 0 204 EmptyString) "delete_account" (Some 1%positive)
          (start switch_bag None)).2 !! 1%positive = Some switch_bag.
Proof.
  destruct (caller_bag_unchanged (browser 0 204 EmptyString) "delete_account" 1%positive
              (start switch_bag None) switch_bag) as (Hsame & _);
    [vm_compute; reflexivity|].
  exact Hsame.
Defined.

End Samples.



(** * Further properties *)

(** ** Replacing inside a path *)

Section PathFacts.

Lemma startsWith_app_l s r p : startsWith s p = true -> startsWith (s +:+ r) p = true.
Proof.
  revert s; induction p as [|a p IH]; intros s Hs; [done|].
  destruct s as [|b s]; [done|]. rewrite append_cons. simpl in *.
  destruct (Ascii.eqb a b); [by apply IH|done].
Qed.

Lemma includes_app_l a b p : includes b p = true -> includes (a +:+ b) p = true.
Proof. induction a as [|c a IH]; intros Hb; [done|]. apply includes_tail. by apply IH. Qed.

Lemma includes_app_r a b p : includes a p = true -> includes (a +:+ b) p = true.
Proof.
  induction a as [|c a IH]; cbn [includes].
  - destruct (startsWith EmptyString p) eqn:E; [|done]. intros _.
    destruct p; [|done]. by destruct b.
  - destruct (startsWith (String c a) p) eqn:E.
    + intros _. rewrite append_cons. cbn [includes].
      apply (startsWith_app_l _ b) in E. rewrite append_cons in E. by rewrite E.
    + intros Ha. rewrite append_cons. apply includes_tail. by apply IH.
Qed.

Lemma includes_self_prefix r s : includes (r +:+ s) r = true.
Proof.
  destruct r as [|c r]; [by destruct s|].
  rewrite append_cons. cbn [includes].
  assert (startsWith (String c (r +:+ s)) (String c r) = true) as ->; [|done].
  simpl. rewrite Ascii.eqb_refl. clear c.
  induction r as [|c r IH]; [done|]. rewrite append_cons. simpl. by rewrite Ascii.eqb_refl.
Qed.

Lemma count_char_app c a b : count_char c (a +:+ b) = count_char c a + count_char c b.
Proof.
  induction a as [|d a IH]; [done|]. rewrite append_cons. simpl. rewrite IH. lia.
Qed.

Lemma count_char_zero c s : count_char c s = 0 <-> has_char c s = false.
Proof.
  induction s as [|d s IH]; simpl; [done|].
  destruct (Ascii.eqb d c); simpl; [split; [lia|done]|apply IH].
Qed.

(** Replacing the first occurrence of [p] takes away the characters of [p]
    and brings in those of [r]. *)
Lemma count_char_replace c s p r :
  includes s p = true ->
  count_char c (replace_literal s p r) + count_char c p = count_char c s + count_char c r.
Proof.
  induction s as [|d s IH]; cbn [includes replace_literal].
  - destruct (startsWith EmptyString p) eqn:E; [|done]. intros _.
    destruct p; [|done]. simpl. rewrite count_char_app. simpl. lia.
  - destruct (startsWith (String d s) p) eqn:E.
    + intros _. rewrite (startsWith_split _ _ E) at 2.
      rewrite !count_char_app. lia.
    + intros Hs. specialize (IH Hs). simpl. lia.
Qed.

Lemma includes_replace s p r : includes s p = true -> includes (replace_literal s p r) r = true.
Proof.
  induction s as [|d s IH]; cbn [includes replace_literal].
  - destruct (startsWith EmptyString p); [|done]. intros _. apply includes_self_prefix.
  - destruct (startsWith (String d s) p).
    + intros _. apply includes_self_prefix.
    + intros Hs. apply includes_tail. by apply IH.
Qed.

Lemma has_char_replace c s p r :
  has_char c s = false -> has_char c r = false -> has_char c (replace_literal s p r) = false.
Proof.
  intros Hs Hr. destruct (includes s p) eqn:Hinc.
  - apply count_char_zero. apply count_char_zero in Hs, Hr.
    pose proof (count_char_replace c s p r Hinc). lia.
  - revert Hinc Hs. clear Hr. induction s as [|d s IH]; cbn [includes replace_literal].
    + by destruct (startsWith EmptyString p).
    + destruct (startsWith (String d s) p); [done|]. intros Hi. simpl.
      intros [Hd Hs]%orb_false_elim. rewrite Hd. simpl. by apply IH.
Qed.

(** A pattern without slash cannot reach across a slash. *)
Lemma startsWith_across x y p :
  has_char "/" p = false -> startsWith (x +:+ "/" +:+ y) p = startsWith x p.
Proof.
  revert x. induction p as [|a p IH]; intros x Hp; [done|].
  simpl in Hp. apply orb_false_elim in Hp as [Ha Hp].
  destruct x as [|b x].
  - rewrite append_nil, append_cons, append_nil. simpl. by rewrite Ha.
  - rewrite append_cons. simpl. destruct (Ascii.eqb a b); [by apply IH|done].
Qed.

Lemma slice_app x z n : n <= String.length x -> slice n (x +:+ z) = slice n x +:+ z.
Proof.
  revert x. induction n as [|n IH]; intros x Hn; [done|].
  destruct x as [|b x]; simpl in Hn; [lia|]. rewrite append_cons. simpl. apply IH. lia.
Qed.

Lemma startsWith_length s p : startsWith s p = true -> String.length p <= String.length s.
Proof.
  revert s. induction p as [|a p IH]; intros s Hs; simpl; [lia|].
  destruct s as [|b s]; [done|]. simpl in *. destruct (Ascii.eqb a b); [|done].
  apply IH in Hs. lia.
Qed.

Lemma append_assoc a b c : (a +:+ b) +:+ c = a +:+ (b +:+ c).
Proof. induction a as [|d a IH]; [done|]. by rewrite !append_cons, IH. Qed.

Lemma includes_across x y p :
  has_char "/" p = false -> p <> EmptyString ->
  includes (x +:+ "/" +:+ y) p = includes x p || includes y p.
Proof.
  intros Hp Hne. induction x as [|b x IH].
  - rewrite append_nil, append_cons, append_nil. cbn [includes].
    destruct p as [|a p]; [done|]. simpl in Hp. apply orb_false_elim in Hp as [Ha Hp].
    simpl. by rewrite Ha.
  - rewrite append_cons. cbn [includes]. rewrite <-append_cons.
    rewrite (startsWith_across (String b x) y p Hp).
    destruct (startsWith (String b x) p); [done|]. apply IH.
Qed.

Lemma replace_across x y p r :
  has_char "/" p = false -> p <> EmptyString ->
  replace_literal (x +:+ "/" +:+ y) p r =
    if includes x p then replace_literal x p r +:+ "/" +:+ y
    else x +:+ "/" +:+ replace_literal y p r.
Proof.
  intros Hp Hne. induction x as [|b x IH].
  - rewrite append_nil, append_cons, append_nil. cbn [includes replace_literal].
    destruct p as [|a p]; [done|]. simpl in Hp. apply orb_false_elim in Hp as [Ha Hp].
    simpl. by rewrite Ha.
  - rewrite append_cons. cbn [includes replace_literal]. rewrite <-append_cons.
    rewrite (startsWith_across (String b x) y p Hp).
    destruct (startsWith (String b x) p) eqn:E.
    + rewrite slice_app by (by apply startsWith_length). by rewrite append_assoc.
    + rewrite IH. by destruct (includes x p).
Qed.

Lemma join_cons sep x y rest : join sep (x :: y :: rest) = x +:+ sep +:+ join sep (y :: rest).
Proof. reflexivity. Qed.

Lemma segments_nonempty s : segments s <> [].
Proof.
  destruct s as [|c s]; simpl; [done|].
  destruct (Ascii.eqb c "/"); [done|]. by destruct (segments s).
Qed.

(** A path is its segments joined by slashes. *)
Lemma join_segments s : join "/" (segments s) = s.
Proof.
  induction s as [|c s IH]; [done|]. simpl.
  destruct (Ascii.eqb c "/") eqn:Ec.
  - apply Ascii.eqb_eq in Ec as ->.
    destruct (segments s) as [|seg rest] eqn:E; [by apply segments_nonempty in E|].
    rewrite join_cons, IH. done.
  - destruct (segments s) as [|seg rest] eqn:E; [by apply segments_nonempty in E|].
    destruct rest as [|seg' rest'].
    + simpl in *. by rewrite IH.
    + rewrite join_cons in *. by rewrite append_cons, IH.
Qed.

Lemma replace_in_first_cons seg rest p r :
  replace_in_first (seg :: rest) p r =
    if includes seg p then replace_literal seg p r :: rest
    else seg :: replace_in_first rest p r.
Proof. reflexivity. Qed.

(** On texts joined by slashes, a replacement without slash works on the
    first text that includes the pattern. *)
Lemma replace_join segs p r :
  has_char "/" p = false -> p <> EmptyString ->
  replace_literal (join "/" segs) p r = join "/" (replace_in_first segs p r).
Proof.
  intros Hp Hne. induction segs as [|seg rest IH].
  - simpl. destruct p; [done|]. done.
  - destruct rest as [|seg' rest'].
    + simpl. destruct (includes seg p) eqn:E; [done|].
      simpl. clear IH. induction seg as [|d seg IHs]; cbn [includes replace_literal] in *.
      * by destruct (startsWith EmptyString p).
      * destruct (startsWith (String d seg) p); [done|]. by rewrite IHs.
    + rewrite join_cons, replace_across by done.
      rewrite (replace_in_first_cons seg).
      destruct (includes seg p); [done|]. rewrite IH.
      destruct (replace_in_first (seg' :: rest') p r) as [|z zs] eqn:E.
      * exfalso. simpl in E. by destruct (includes seg' p).
      * done.
Qed.

Lemma includes_join segs p :
  has_char "/" p = false -> p <> EmptyString ->
  includes (join "/" segs) p = existsb (fun seg => includes seg p) segs.
Proof.
  intros Hp Hne. induction segs as [|seg rest IH].
  - simpl. by destruct p.
  - destruct rest as [|seg' rest'].
    + simpl. by rewrite orb_false_r.
    + rewrite join_cons, includes_across by done. by rewrite IH.
Qed.

Lemma includes_join_elem segs seg v :
  seg ∈ segs -> includes seg v = true -> includes (join "/" segs) v = true.
Proof.
  intros Hin Hv. induction segs as [|s0 rest IH]; [by apply elem_of_nil in Hin|].
  destruct rest as [|s1 rest'].
  - apply list_elem_of_singleton in Hin as ->. done.
  - rewrite join_cons. apply elem_of_cons in Hin as [->|Hin].
    + by apply includes_app_r.
    + apply includes_app_l, includes_app_l. by apply IH.
Qed.

End PathFacts.


(** ** What the path-parameter loop keeps *)

Section LoopFacts.

Context {num : Type} `{JSNumber num}.

Lemma encode_unit_safe c :
  has_char "/" (encode_unit c) = false /\ has_char "?" (encode_unit c) = false
  /\ has_char "#" (encode_unit c) = false /\ has_char "&" (encode_unit c) = false.
Proof. destruct c as [[] [] [] [] [] [] [] []]; vm_compute; done. Qed.

Lemma encodeURIComponent_safe s :
  has_char "/" (encodeURIComponent s) = false /\ has_char "?" (encodeURIComponent s) = false
  /\ has_char "#" (encodeURIComponent s) = false.
Proof.
  induction s as [|c s (I1 & I2 & I3)]; simpl; [done|].
  rewrite !has_char_app, I1, I2, I3.
  by destruct (encode_unit_safe c) as (-> & -> & -> & _).
Qed.

Lemma form_unit_safe c :
  has_char "/" (form_unit c) = false /\ has_char "#" (form_unit c) = false.
Proof. destruct c as [[] [] [] [] [] [] [] []]; vm_compute; done. Qed.

Lemma params_toString_safe params :
  has_char "?" (params_toString params) = false
  /\ has_char "#" (params_toString params) = false
  /\ has_char "/" (params_toString params) = false.
Proof.
  assert (Hf : forall s, has_char "?" (form_encode s) = false
                      /\ has_char "#" (form_encode s) = false
                      /\ has_char "/" (form_encode s) = false).
  { induction s as [|c s (I1 & I2 & I3)]; simpl; [done|].
    rewrite !has_char_app, I1, I2, I3.
    destruct (form_unit_clean c) as (_ & -> & _). by destruct (form_unit_safe c) as (-> & ->). }
  unfold params_toString.
  induction params as [|[k v] rest (I1 & I2 & I3)]; [done|].
  destruct (Hf k) as (K1 & K2 & K3). destruct (Hf v) as (V1 & V2 & V3).
  cbn [map fst snd]. destruct (map _ rest) as [|y ys] eqn:E.
  - simpl. by rewrite !has_char_app, K1, K2, K3, V1, V2, V3.
  - rewrite join_cons. rewrite !has_char_app, K1, K2, K3, V1, V2, V3, I1, I2, I3. done.
Qed.

(** A character that the template lacks and [encodeURIComponent] escapes is
    not in the substituted URL. *)
Lemma run_substitution_lacks c (o : object num) keys url :
  (forall s, has_char c (encodeURIComponent s) = false) ->
  has_char c url = false ->
  has_char c (run_substitution o keys url).1 = false.
Proof.
  intros Henc. revert url. induction keys as [|key rest IH]; intros url Hu; [done|].
  rewrite run_substitution_cons. destruct (includes url (":" +:+ key)); [|by apply IH].
  cbn zeta. cbn [fst]. apply IH.
  rewrite replace_is_literal by apply encodeURIComponent_no_dollar.
  by apply has_char_replace.
Qed.

(** The loop leaves a text without colon at the head of the URL in place. *)
Lemma run_substitution_prefix (o : object num) keys url m :
  has_char ":" m = false -> startsWith url m = true ->
  startsWith (run_substitution o keys url).1 m = true.
Proof.
  intros Hm. revert url. induction keys as [|key rest IH]; intros url Hu; [done|].
  rewrite run_substitution_cons. destruct (includes url (":" +:+ key)); [|by apply IH].
  cbn zeta. cbn [fst]. apply IH.
  rewrite replace_is_literal by apply encodeURIComponent_no_dollar.
  by apply startsWith_replace_literal.
Qed.

Lemma static_prefix_spec t :
  has_char ":" (static_prefix t) = false /\ startsWith t (static_prefix t) = true.
Proof.
  induction t as [|c t [I1 I2]]; [done|]. simpl.
  destruct (Ascii.eqb c ":") eqn:E; [done|]. simpl. by rewrite E, Ascii.eqb_refl.
Qed.

Lemma count_placeholder key : count_char ":" (":" +:+ key) = S (count_char ":" key).
Proof. reflexivity. Qed.

(** Without a colon in the URL the loop consumes nothing. *)
Lemma run_substitution_no_colon (o : object num) keys url :
  has_char ":" url = false -> run_substitution o keys url = (url, []).
Proof.
  intros Hu. induction keys as [|key rest IH]; [done|].
  rewrite run_substitution_cons.
  assert (includes url (":" +:+ key) = false) as ->; [|done].
  destruct (includes url (":" +:+ key)) eqn:E; [|done].
  apply count_char_zero in Hu.
  pose proof (count_char_replace ":" url (":" +:+ key) EmptyString E) as Hc.
  rewrite count_placeholder in Hc. simpl in Hc. lia.
Qed.

Abbreviation settled v :=
  (Exists (fun seg => count_char ":" seg = 0 /\ includes seg v = true)).

Lemma includes_count seg p : includes seg p = true -> count_char ":" p <= count_char ":" seg.
Proof.
  intros Hi. pose proof (count_char_replace ":" seg p EmptyString Hi) as Hc. simpl in Hc. lia.
Qed.

Lemma replace_in_first_colons segs key r :
  Forall (fun seg => count_char ":" seg <= 1) segs -> count_char ":" r = 0 ->
  Forall (fun seg => count_char ":" seg <= 1) (replace_in_first segs (":" +:+ key) r).
Proof.
  intros Hall Hr. induction Hall as [|seg rest Hseg Hrest IH]; [done|].
  rewrite replace_in_first_cons. destruct (includes seg (":" +:+ key)) eqn:E.
  - constructor; [|done].
    pose proof (count_char_replace ":" seg (":" +:+ key) r E) as Hc.
    rewrite count_placeholder in Hc. simpl in Hc. lia.
  - by constructor.
Qed.

Lemma replace_in_first_length segs p r : length (replace_in_first segs p r) = length segs.
Proof.
  induction segs as [|seg rest IH]; [done|]. rewrite replace_in_first_cons.
  destruct (includes seg p); simpl; by rewrite ?IH.
Qed.

(** A segment without colon is never touched again. *)
Lemma settled_kept v segs key r :
  settled v segs -> settled v (replace_in_first segs (":" +:+ key) r).
Proof.
  induction 1 as [seg rest [Hc Hv]|seg rest Hex IH]; rewrite replace_in_first_cons.
  - destruct (includes seg (":" +:+ key)) eqn:E.
    + apply includes_count in E. rewrite count_placeholder in E. lia.
    + by constructor.
  - destruct (includes seg (":" +:+ key)); by constructor.
Qed.

(** The replaced segment loses its only colon and holds the new value. *)
Lemma settled_made segs key r :
  Forall (fun seg => count_char ":" seg <= 1) segs -> count_char ":" r = 0 ->
  existsb (fun seg => includes seg (":" +:+ key)) segs = true ->
  settled r (replace_in_first segs (":" +:+ key) r).
Proof.
  intros Hall Hr. induction Hall as [|seg rest Hseg Hrest IH]; [done|].
  rewrite replace_in_first_cons. cbn [existsb].
  destruct (includes seg (":" +:+ key)) eqn:E.
  - intros _. constructor. split; [|by apply includes_replace].
    pose proof (count_char_replace ":" seg (":" +:+ key) r E) as Hc.
    rewrite count_placeholder in Hc. simpl in Hc. lia.
  - simpl. intros Hex. apply Exists_cons_tl. by apply IH.
Qed.

(** When no key holds a slash, the loop works segment by segment: the number
    of segments stays, and the value put in for a consumed key stays in a
    segment of the URL. *)
Lemma run_substitution_segments (o : object num) keys segs :
  Forall (fun key => has_char "/" key = false) keys ->
  Forall (fun seg => count_char ":" seg <= 1) segs ->
  exists segs',
    (run_substitution o keys (join "/" segs)).1 = join "/" segs'
    /\ length segs' = length segs
    /\ Forall (fun seg => count_char ":" seg <= 1) segs'
    /\ (forall v, settled v segs -> settled v segs')
    /\ (forall k, k ∈ (run_substitution o keys (join "/" segs)).2 ->
        settled (encodeURIComponent (ToString (get o k))) segs').
Proof.
  intros Hkeys. revert segs. induction Hkeys as [|key rest Hkey Hrest IH]; intros segs Hall.
  - exists segs. repeat split; try done. intros k Hk. by apply elem_of_nil in Hk.
  - rewrite run_substitution_cons.
    assert (Hp : has_char "/" (":" +:+ key) = false) by (by rewrite append_cons).
    assert (Hne : ":" +:+ key <> EmptyString) by (by rewrite append_cons).
    destruct (includes (join "/" segs) (":" +:+ key)) eqn:Hinc; cbn zeta; cbn [fst snd].
    + set (v := encodeURIComponent (ToString (get o key))).
      assert (Hv : count_char ":" v = 0)
        by (apply count_char_zero, encodeURIComponent_no_colon).
      rewrite replace_is_literal by apply encodeURIComponent_no_dollar. fold v.
      rewrite replace_join by (done || apply encodeURIComponent_safe).
      rewrite includes_join in Hinc by done.
      destruct (IH (replace_in_first segs (":" +:+ key) v)) as (segs' & E & L & A & K & C).
      { by apply replace_in_first_colons. }
      exists segs'. repeat split; [done| |done| |].
      * by rewrite L, replace_in_first_length.
      * intros v0 Hv0. by apply K, settled_kept.
      * intros k [->|Hk]%elem_of_cons; [|by apply C].
        apply K. by apply settled_made.
    + destruct (IH segs Hall) as (segs' & E & L & A & K & C). by exists segs'.
Qed.

(** The routes of the table: every URL template starts with [/api/], has no
    question mark and no hash sign, and at most one colon in each segment. *)
Lemma COMMAND_MAPPING_shape cmd m :
  COMMAND_MAPPING !! cmd = Some m ->
  startsWith (url m) "/api/" = true /\ has_char "?" (url m) = false
  /\ has_char "#" (url m) = false /\ one_colon_per_segment (url m) = true.
Proof.
  intros Hm. apply elem_of_list_to_map_2 in Hm.
  assert (Hall : Forall (fun e => startsWith (url e.2) "/api/" = true
                          /\ has_char "?" (url e.2) = false
                          /\ has_char "#" (url e.2) = false
                          /\ one_colon_per_segment (url e.2) = true)
                   COMMAND_MAPPING_entries).
  { apply Forall_forall. intros e He.
    repeat (apply elem_of_cons in He as [->|He]; [by vm_compute|]).
    by apply elem_of_nil in He. }
  rewrite Forall_forall in Hall. apply (Hall _ Hm).
Qed.

End LoopFacts.


(** ** Every path through a dispatch *)

Section PathsThroughDispatch.

Context {num : Type} `{JSNumber num}.

Abbreviation value := (value num).
Abbreviation world := (world num).
Abbreviation env := (env num).

(** Two worlds that differ at most in their heaps. *)
Abbreviation same_but_heap w0 w :=
  (sessionStorage w0 = sessionStorage w /\ lastAuthErrorTime w0 = lastAuthErrorTime w
   /\ events w0 = events w /\ fetched w0 = fetched w /\ console w0 = console w).

Ltac unfold_send :=
  unfold send, try_catch, mbind, M_bind, bind, do_fetch, get_lastAuthErrorTime,
    set_lastAuthErrorTime, dispatchEvent, parse, get_error, console_log, throw,
    mret, M_ret, ret;
  cbn [fst snd heap sessionStorage lastAuthErrorTime events console fetched].

(** The paths of [send], in the order of its decisions. *)
Ltac send_paths e r :=
  unfold_send;
  let resp := fresh "resp" in
  destruct (fetch e r) as [?|resp] eqn:?;
  [ simpl
  | simpl; destruct (ok resp) eqn:?;
    [ simpl; destruct (status resp =? 204)%N eqn:?;
      [ simpl
      | simpl; destruct (nonempty (body_text resp)) eqn:?;
        [ simpl; destruct (JSON_parse e (body_text resp)) eqn:?; simpl
        | simpl ] ]
    | simpl; destruct (negb (isTauri e) && (status resp =? 401)%N) eqn:?;
      [ simpl; destruct (_ >? _)%Z eqn:?; simpl;
        destruct (JSON_parse e (body_text resp)) as [[]|] eqn:?; simpl
      | simpl; destruct (JSON_parse e (body_text resp)) as [[]|] eqn:?; simpl ] ] ].

Lemma send_storage (e : env) cmd r (w : world) :
  sessionStorage (send e cmd r w).2 = sessionStorage w.
Proof. send_paths e r; done. Qed.

(** What [send] does to the events and to the time of the last emission. *)
Lemma send_step (e : env) cmd r (w : world) :
  (events (send e cmd r w).2 = events w
   /\ lastAuthErrorTime (send e cmd r w).2 = lastAuthErrorTime w)
  \/ (events (send e cmd r w).2 = events w ++ [unauthorized]
      /\ lastAuthErrorTime (send e cmd r w).2 = Some (Date_now e)
      /\ (Date_now e - last_emission w > 2000)%Z).
Proof.
  unfold last_emission.
  send_paths e r; try (by left); right; repeat split; try done; lia.
Qed.

(** What [send] writes on the console. *)
Lemma send_console (e : env) cmd r (w : world) :
  match (send e cmd r w).1 with
  | Throw t => console (send e cmd r w).2 = console w ++ [fetch_error_entry cmd t]
  | Ok v =>
      console (send e cmd r w).2 = console w
      \/ exists text, v = VStr text
           /\ console (send e cmd r w).2 =
                console w ++ [(LogWarn, "Failed to parse JSON response for [" +:+ cmd +:+ "]:",
                               ExtraText text)]
  end.
Proof.
  unfold fetch_error_entry.
  send_paths e r; try done; try (by left). right. by eexists.
Qed.

Lemma send_network_failure (e : env) cmd r (w : world) reason :
  fetch e r = FetchRejects reason ->
  (send e cmd r w).1 = Throw reason /\ events (send e cmd r w).2 = events w.
Proof. intros Hf. unfold_send. by rewrite Hf. Qed.

(** The native path: the outcome of [invoke], and a line on the console when
    it is a rejection. *)
Lemma request_native_path (e : env) cmd args (w : world) :
  isTauri e = true ->
  (request e cmd args w).1 =
    match invoke e cmd (bag w args) with
    | Resolved v => Ok v
    | Rejected t => Throw t
    end
  /\ heap (request e cmd args w).2 = heap w
  /\ sessionStorage (request e cmd args w).2 = sessionStorage w
  /\ lastAuthErrorTime (request e cmd args w).2 = lastAuthErrorTime w
  /\ events (request e cmd args w).2 = events w
  /\ fetched (request e cmd args w).2 = fetched w
  /\ console (request e cmd args w).2 =
       console w ++ match invoke e cmd (bag w args) with
                    | Resolved _ => []
                    | Rejected t => [invoke_error_entry cmd t]
                    end.
Proof.
  intros Ht. unfold request. rewrite Ht.
  unfold try_catch, mbind, M_bind, bind, read, console_log, throw, mret, M_ret, ret, bag.
  destruct args; cbn [fst snd]; destruct (invoke e cmd _); cbn; rewrite ?app_nil_r; done.
Qed.

(** In browser mode a dispatch either stops before the network, or goes on
    with [send] in a world that differs from the first at most in its heap. *)
Lemma request_browser_paths (e : env) cmd args (w : world) :
  isTauri e = false ->
  (exists r w0, request e cmd args w = send e cmd r w0 /\ same_but_heap w0 w)
  \/ (exists t w0, request e cmd args w = (Throw t, w0)
        /\ sessionStorage w0 = sessionStorage w
        /\ lastAuthErrorTime w0 = lastAuthErrorTime w
        /\ events w0 = events w /\ fetched w0 = fetched w).
Proof.
  intros Ht. destruct (COMMAND_MAPPING_get cmd) as [m| |] eqn:Hget.
  - left. assert (Hm : COMMAND_MAPPING !! cmd = Some m).
    { unfold COMMAND_MAPPING_get in Hget.
      destruct (COMMAND_MAPPING !! cmd); [congruence|]. by destruct (bool_decide _). }
    eexists _, (after_copy m args w). split; [by apply request_browser|].
    by destruct args.
  - unfold request. rewrite Ht, Hget.
    destruct args as [l|].
    + unfold mbind, M_bind, bind, read, spread, getItem, throw, mret, M_ret, ret.
      cbn [fst snd heap sessionStorage].
      set (b := fresh (dom (heap w))).
      set (o := default [] (heap w !! l)).
      assert (Ho : default [] (<[b:=o]> (heap w) !! l) = o).
      { destruct (decide (l = b)) as [->|Hlb]; [by rewrite lookup_insert_eq|].
        by rewrite lookup_insert_ne. }
      rewrite Ho. destruct o as [|kv o'].
      * left. eexists _, _. split; [reflexivity|]. done.
      * right. eexists _, _. split; [reflexivity|]. done.
    + left. eexists _, w. split; [reflexivity|]. done.
  - right. unfold request. rewrite Ht, Hget. eexists _, _. split; [reflexivity|]. done.
Qed.

(** One dispatch, whatever its path: it does not write the session storage,
    it calls [fetch] at most once, and it emits the session-expired event
    once or not at all; it emits it only if more than 2000ms have passed
    since the last emission, and then it records the time. *)
Lemma request_step (e : env) cmd args (w : world) :
  let w' := (request e cmd args w).2 in
  sessionStorage w' = sessionStorage w
  /\ (fetched w' = fetched w \/ exists r, fetched w' = fetched w ++ [r])
  /\ ((events w' = events w /\ lastAuthErrorTime w' = lastAuthErrorTime w)
      \/ (events w' = events w ++ [unauthorized]
          /\ lastAuthErrorTime w' = Some (Date_now e)
          /\ (Date_now e - last_emission w > 2000)%Z)).
Proof.
  cbn zeta. destruct (isTauri e) eqn:Ht.
  { destruct (request_native_path e cmd args w Ht) as (_ & _ & -> & -> & -> & -> & _).
    repeat split; [by left|by left]. }
  destruct (request_browser_paths e cmd args w Ht)
    as [(r & w0 & -> & S & L & E & F & _)|(t & w0 & -> & S & L & E & F)].
  - rewrite send_storage, send_fetched, S, F. split; [done|]. split; [right; by eexists|].
    destruct (send_step e cmd r w0) as [[-> ->]|(-> & -> & Hgt)].
    + left. by rewrite E, L.
    + right. rewrite E. repeat split; try done.
      unfold last_emission in *. by rewrite <-L.
  - cbn [snd]. rewrite S, L, E, F. repeat split; by left.
Qed.

(** A call that [send] resolves had a response in the range 2xx, and emitted
    nothing. *)
Lemma send_resolved (e : env) cmd r (w : world) v :
  (send e cmd r w).1 = Ok v ->
  exists resp, fetch e r = FetchResponds resp /\ ok resp = true
    /\ events (send e cmd r w).2 = events w
    /\ lastAuthErrorTime (send e cmd r w).2 = lastAuthErrorTime w.
Proof. send_paths e r; intros Hv; try done; by eexists. Qed.

(** [send] emits an event only for a response with the status 401, in
    browser mode, and then it rejects the call. *)
Lemma send_emits (e : env) cmd r (w : world) :
  events (send e cmd r w).2 <> events w ->
  isTauri e = false
  /\ exists resp t, fetch e r = FetchResponds resp /\ status resp = 401%N
       /\ (send e cmd r w).1 = Throw t.
Proof.
  unfold_send.
  destruct (fetch e r) as [?|resp] eqn:Hf; [done|]. simpl.
  destruct (ok resp) eqn:Hok; simpl.
  { destruct (status resp =? 204)%N; [done|]. simpl.
    destruct (nonempty (body_text resp)); [|done]. simpl.
    by destruct (JSON_parse e (body_text resp)). }
  destruct (negb (isTauri e) && (status resp =? 401)%N) eqn:H401; simpl.
  2: { by destruct (JSON_parse e (body_text resp)) as [[]|]. }
  apply andb_prop in H401 as [Hb Hs]. apply N.eqb_eq in Hs.
  intros _. split; [by destruct (isTauri e)|]. exists resp.
  destruct (_ >? _)%Z; simpl; destruct (JSON_parse e (body_text resp)) as [[]|]; simpl;
    by eexists.
Qed.

(** X13. What a resolved call means (lines 146 to 177). In browser mode a
    dispatch resolves only if its request was sent and the response had a
    status in the range 2xx; such a dispatch emits no event and leaves the
    time of the last session-expired event as it was. *)
Theorem resolved_means_ok_response (e : env) cmd args (w : world) v :
  isTauri e = false -> (request e cmd args w).1 = Ok v ->
  exists r resp, receives e cmd args w r resp /\ ok resp = true
    /\ events (request e cmd args w).2 = events w
    /\ lastAuthErrorTime (request e cmd args w).2 = lastAuthErrorTime w.
Proof.
  intros Ht Hv.
  destruct (request_browser_paths e cmd args w Ht)
    as [(r & w0 & Hreq & S & L & E & F & _)|(t & w0 & Hreq & _)].
  - rewrite Hreq in Hv. destruct (send_resolved e cmd r w0 v Hv) as (resp & Hf & Hok & Ev & La).
    exists r, resp. unfold receives, sends. rewrite Hreq, send_fetched, F, Ev, La. done.
  - by rewrite Hreq in Hv.
Qed.

(** X14. When the session-expired event is emitted (lines 148 to 160). A
    dispatch changes the list of events only in browser mode, only after a
    response with the status 401, and only if more than 2000ms have passed
    since the last emission; the event is then the only one added, and the
    dispatch is rejected. *)
Theorem event_means_401 (e : env) cmd args (w : world) :
  events (request e cmd args w).2 <> events w ->
  isTauri e = false
  /\ (exists r resp t, receives e cmd args w r resp /\ status resp = 401%N
        /\ (request e cmd args w).1 = Throw t)
  /\ events (request e cmd args w).2 = events w ++ [unauthorized]
  /\ (Date_now e - last_emission w > 2000)%Z.
Proof.
  intros Hne.
  destruct (request_step e cmd args w) as (_ & _ & [[Ev _]|(Ev & _ & Hgt)]); [done|].
  destruct (isTauri e) eqn:Ht.
  { by destruct (request_native_path e cmd args w Ht) as (_ & _ & _ & _ & E & _). }
  split; [done|]. split; [|done].
  destruct (request_browser_paths e cmd args w Ht)
    as [(r & w0 & Hreq & S & L & E & F & _)|(t & w0 & Hreq & _ & _ & E & _)].
  - rewrite Hreq, <-E in Hne.
    destruct (send_emits e cmd r w0 Hne) as (_ & resp & t & Hf & Hs & Hr).
    exists r, resp, t. unfold receives, sends. rewrite Hreq, send_fetched, F. done.
  - rewrite Hreq in Hne. done.
Qed.

End PathsThroughDispatch.


(** ** Properties of the dispatcher beyond the claims *)

Section Extras.

Context {num : Type} `{JSNumber num}.

Abbreviation value := (value num).
Abbreviation world := (world num).
Abbreviation env := (env num).

Lemma sends_send (e : env) cmd args (w : world) r :
  isTauri e = false -> sends e cmd args w r ->
  exists w0, request e cmd args w = send e cmd r w0
    /\ sessionStorage w0 = sessionStorage w /\ lastAuthErrorTime w0 = lastAuthErrorTime w
    /\ events w0 = events w /\ fetched w0 = fetched w /\ console w0 = console w.
Proof.
  intros Ht Hs. unfold sends in Hs.
  destruct (request_browser_paths e cmd args w Ht)
    as [(r' & w0 & Hreq & S & L & E & F & C)|(t & w0 & Hreq & S & L & E & F)].
  - rewrite Hreq, send_fetched, F in Hs. apply app_inv_head in Hs as [= ->]. by exists w0.
  - rewrite Hreq in Hs. cbn [snd] in Hs. rewrite F in Hs.
    apply (f_equal length) in Hs. rewrite length_app in Hs. simpl in Hs. lia.
Qed.

Lemma query_of_plain u : has_char "?" u = false -> query_of u = EmptyString.
Proof.
  unfold query_of. intros Hu.
  assert (split_first u "?" = None) as ->; [|done].
  induction u as [|c u IH]; [done|]. simpl in Hu. apply orb_false_elim in Hu as [Hc Hu].
  cbn [split_first startsWith]. rewrite (Ascii.eqb_sym "?" c), Hc. by rewrite IH.
Qed.

Lemma query_of_append u q : has_char "?" u = false -> query_of (u +:+ "?" +:+ q) = q.
Proof.
  unfold query_of. intros Hu.
  assert (split_first (u +:+ "?" +:+ q) "?" = Some (u, q)) as ->; [|done].
  induction u as [|c u IH]; [done|]. simpl in Hu. apply orb_false_elim in Hu as [Hc Hu].
  rewrite (append_cons c). cbn [split_first startsWith].
  rewrite (Ascii.eqb_sym "?" c), Hc. by rewrite IH.
Qed.

(** The URL of the prepared request of a GET or DELETE route. *)
Lemma prepared_query m (o : object num) k :
  method m = GET \/ method m = DELETE ->
  let u := substituted_url (url m) (Some o) in
  let ps := spec_query_params o u in
  req_url (prepared m (Some o) k) =
    match ps with [] => u | _ :: _ => u +:+ "?" +:+ params_toString ps end.
Proof.
  intros Hverb. cbn zeta. unfold prepared.
  assert (bool_decide (method m = GET) || bool_decide (method m = DELETE) = true) as ->.
  { destruct Hverb as [-> | ->]; done. }
  cbn [req_url]. unfold Object_entries. rewrite run_query_spec, app_nil_l.
  destruct (spec_query_params o _) as [|p ps'] eqn:Eps; [done|].
  unfold nonempty. destruct (String.eqb _ _) eqn:Eq; [|done].
  apply String.eqb_eq, params_toString_empty in Eq. done.
Qed.

(** The URL of the prepared request of any other dispatch. *)
Lemma prepared_plain m (o : option (object num)) k :
  method m = POST \/ method m = PATCH \/ o = None ->
  req_url (prepared m o k) = substituted_url (url m) o.
Proof.
  intros Hcase. unfold prepared.
  destruct o as [o|].
  - destruct Hcase as [-> | [-> | [=]]]; done.
  - by destruct (bool_decide _ || bool_decide _), (bool_decide _ || bool_decide _).
Qed.

Lemma substituted_lacks c m (o : option (object num)) :
  (forall s, has_char c (encodeURIComponent s) = false) ->
  has_char c (url m) = false -> has_char c (substituted_url (url m) o) = false.
Proof.
  intros Henc Hu. destruct o as [o|]; [|done]. by apply run_substitution_lacks.
Qed.

Lemma consumed_keys_are_keys (o : object num) keys url k :
  k ∈ (run_substitution o keys url).2 -> k ∈ keys.
Proof.
  revert url. induction keys as [|key rest IH]; intros url; [done|].
  rewrite run_substitution_cons. destruct (includes url (":" +:+ key)); cbn zeta; cbn [snd].
  - intros [->|Hk]%elem_of_cons; [by left|]. right. by apply (IH _ Hk).
  - intros Hk. right. by apply (IH _ Hk).
Qed.

Lemma get_of_entry (o : object num) k v :
  NoDup (Object_keys o) -> (k, v) ∈ o -> get o k = v.
Proof.
  unfold Object_keys. induction o as [|[k0 v0] o IH]; intros Hnd Hin;
    [by apply elem_of_nil in Hin|].
  rewrite fmap_cons in Hnd. apply NoDup_cons in Hnd as [Hfresh Hnd]. cbn [fst] in Hfresh.
  cbn [get]. apply elem_of_cons in Hin as [[= -> ->]|Hin].
  - by rewrite String.eqb_refl.
  - destruct (String.eqb_spec k0 k) as [->|Hne]; [|by apply IH].
    exfalso. apply Hfresh. apply list_elem_of_fmap. by exists (k, v).
Qed.

(** X1. Native mode (request.ts, lines 81 to 89). For every command name, in the
    route table or not, the dispatch hands the command and the bag to
    [invoke] and ends as [invoke] does, with the same value or the same
    rejection; a rejection is written once on the console with the name of
    the command. Nothing is fetched, no event is dispatched, and neither the
    heap nor the session storage changes. *)
Theorem native_dispatch (e : env) cmd args (w : world) :
  isTauri e = true ->
  (request e cmd args w).1 =
    match invoke e cmd (bag w args) with
    | Resolved v => Ok v
    | Rejected t => Throw t
    end
  /\ heap (request e cmd args w).2 = heap w
  /\ sessionStorage (request e cmd args w).2 = sessionStorage w
  /\ events (request e cmd args w).2 = events w
  /\ fetched (request e cmd args w).2 = fetched w
  /\ console (request e cmd args w).2 =
       console w ++ match invoke e cmd (bag w args) with
                    | Resolved _ => []
                    | Rejected t => [invoke_error_entry cmd t]
                    end.
Proof.
  intros Ht.
  destruct (request_native_path e cmd args w Ht) as (R & Hh & S & _ & E & F & C). done.
Qed.

(** X2. Failures after the request is sent (lines 146 to 181). In browser mode,
    when [fetch] itself fails the call is rejected with the very reason
    [fetch] gave, and no event is dispatched. Whatever a call that reached
    the network is rejected with, it is written on the console exactly once,
    with the name of the command; a call that resolves writes no error. *)
Theorem rejection_logged (e : env) cmd args (w : world) r :
  isTauri e = false -> sends e cmd args w r ->
  (forall reason, fetch e r = FetchRejects reason ->
     (request e cmd args w).1 = Throw reason
     /\ events (request e cmd args w).2 = events w)
  /\ match (request e cmd args w).1 with
     | Throw t => console (request e cmd args w).2 = console w ++ [fetch_error_entry cmd t]
     | Ok v =>
         console (request e cmd args w).2 = console w
         \/ exists text, v = VStr text
              /\ console (request e cmd args w).2 =
                   console w ++ [(LogWarn,
                                  "Failed to parse JSON response for [" +:+ cmd +:+ "]:",
                                  ExtraText text)]
     end.
Proof.
  intros Ht Hs. destruct (sends_send e cmd args w r Ht Hs) as (w0 & -> & _ & _ & E & _ & C).
  split.
  - intros reason Hf. destruct (send_network_failure e cmd r w0 reason Hf) as [-> ->]. done.
  - pose proof (send_console e cmd r w0) as Hc. rewrite C in Hc. exact Hc.
Qed.

(** X3. A payload of null (lines 158 and 159). In browser mode, when a response
    outside 2xx has a body that parses to null, reading the [error] field
    fails: the call is rejected with a TypeError, not with the HTTP Error
    string, and that is what the console shows. *)
Theorem null_payload_type_error (e : env) cmd args (w : world) r resp :
  isTauri e = false -> receives e cmd args w r resp -> ok resp = false ->
  JSON_parse e (body_text resp) = Some VNull ->
  (request e cmd args w).1 = Throw ThrowTypeError
  /\ console (request e cmd args w).2 = console w ++ [fetch_error_entry cmd ThrowTypeError].
Proof.
  intros Ht [Hs Hf] Hok Hp.
  destruct (sends_send e cmd args w r Ht Hs) as (w0 & Hreq & _ & _ & _ & _ & C).
  assert (Hr : (request e cmd args w).1 = Throw ThrowTypeError).
  { rewrite Hreq, (send_not_ok e cmd r w0 resp Hf Hok), Hp. done. }
  split; [done|].
  pose proof (send_console e cmd r w0) as Hc. rewrite <-Hreq, Hr, C in Hc. exact Hc.
Qed.

Lemma dispatch_all_emissions (calls : list (env * string * option loc)) (w : world) lo hi :
  Forall (fun c => (lo <= Date_now c.1.1 <= hi)%Z) calls ->
  exists n, events (dispatch_all calls w) = events w ++ replicate n unauthorized
    /\ (n = 0 -> lastAuthErrorTime (dispatch_all calls w) = lastAuthErrorTime w)
    /\ (1 <= n -> exists s1 sN,
          (lo <= s1 /\ sN <= hi /\ s1 - last_emission w > 2000
           /\ 2000 * (Z.of_nat n - 1) <= sN - s1)%Z
          /\ lastAuthErrorTime (dispatch_all calls w) = Some sN).
Proof.
  intros Hall. revert w. induction Hall as [|[[e cmd] args] rest Hb Hrest IH]; intros w.
  - exists 0. simpl. rewrite app_nil_r. split; [done|]. split; [done|lia].
  - cbn [dispatch_all]. cbn [fst] in Hb.
    destruct (request_step e cmd args w) as (_ & _ & Hstep).
    destruct (IH (request e cmd args w).2) as (n & En & Hzero & Hpos).
    destruct Hstep as [[Ev La]|(Ev & La & Hgt)].
    + exists n. rewrite En, Ev. split; [done|]. split.
      * intros Hn. by rewrite Hzero, La.
      * intros Hn. destruct (Hpos Hn) as (s1 & sN & Hs & Hl). exists s1, sN.
        split; [|done]. unfold last_emission in *. rewrite La in Hs. done.
    + exists (S n). rewrite En, Ev, <-app_assoc. split; [done|]. split; [done|].
      intros _. destruct n as [|n].
      * exists (Date_now e), (Date_now e). rewrite Hzero by done. split; [lia|done].
      * destruct Hpos as (s1 & sN & Hs & Hl); [lia|].
        exists (Date_now e), sN. split; [|done].
        unfold last_emission in Hs at 1. rewrite La in Hs. lia.
Qed.

(** X4. The debounce over any number of dispatches (lines 149 to 157). Whatever
    the dispatches of a sequence are and however they end, the only events
    they emit are session-expired events, and if all of them happen between
    the times [lo] and [hi], the number [n] of these events is bounded by
    the length of that time: 2000 (n - 1) <= hi - lo. *)
Theorem unauthorized_rate (calls : list (env * string * option loc)) (w : world) lo hi :
  Forall (fun c => (lo <= Date_now c.1.1 <= hi)%Z) calls ->
  exists n, events (dispatch_all calls w) = events w ++ replicate n unauthorized
    /\ (1 <= n -> (2000 * (Z.of_nat n - 1) <= hi - lo)%Z).
Proof.
  intros Hall. destruct (dispatch_all_emissions calls w lo hi Hall) as (n & En & _ & Hpos).
  exists n. split; [done|]. intros Hn. destruct (Hpos Hn) as (s1 & sN & Hs & _). lia.
Qed.

(** X5. The part of the URL no argument can change (lines 98 to 114 and 139). In
    browser mode the URL sent for a command of the route table starts with
    the text its template has before the first colon, whatever the bag holds;
    for every route of the table this text starts with [/api/]. *)
Theorem static_prefix_kept (e : env) cmd args (w : world) m :
  isTauri e = false -> COMMAND_MAPPING !! cmd = Some m ->
  exists r, sends e cmd args w r
    /\ startsWith (req_url r) (static_prefix (url m)) = true
    /\ startsWith (req_url r) "/api/" = true.
Proof.
  intros Ht Hm.
  exists (prepared m (bag w args) (sessionStorage w !! "abv_admin_api_key")).
  split; [by apply request_sends|].
  destruct (COMMAND_MAPPING_shape cmd m Hm) as (Hapi & _).
  destruct (static_prefix_spec (url m)) as [Hc Hp].
  assert (Hkeep : forall p, has_char ":" p = false -> startsWith (url m) p = true ->
            startsWith (req_url (prepared m (bag w args)
                          (sessionStorage w !! "abv_admin_api_key"))) p = true).
  { intros p Hpc Hps.
    assert (Hu : startsWith (substituted_url (url m) (bag w args)) p = true).
    { destruct (bag w args) as [o|]; [|done]. by apply run_substitution_prefix. }
    unfold prepared. destruct (bag w args) as [o|].
    - destruct (bool_decide (method m = GET) || bool_decide (method m = DELETE)).
      + cbn [req_url]. destruct (nonempty _); [|done]. by apply startsWith_app_l.
      + by destruct (bool_decide (method m = POST) || bool_decide (method m = PATCH)).
    - by destruct (bool_decide _ || bool_decide _), (bool_decide _ || bool_decide _). }
  split; by apply Hkeep.
Qed.

(** X6. Where the query starts (lines 129 to 139). In browser mode the URL sent
    for a command of the route table has no fragment, and no question mark
    other than the one the dispatcher puts before the query: for a GET or
    DELETE route with a bag, what follows the first question mark is exactly
    the serialized list of query parameters (nothing, when the list is
    empty); in every other case the URL has no question mark at all. *)
Theorem query_is_delimited (e : env) cmd args (w : world) m :
  isTauri e = false -> COMMAND_MAPPING !! cmd = Some m ->
  exists r, sends e cmd args w r
    /\ has_char "#" (req_url r) = false
    /\ (method m = GET \/ method m = DELETE -> forall o, bag w args = Some o ->
        query_of (req_url r) =
          params_toString (spec_query_params o (substituted_url (url m) (Some o))))
    /\ (method m = POST \/ method m = PATCH \/ bag w args = None ->
        has_char "?" (req_url r) = false).
Proof.
  intros Ht Hm.
  exists (prepared m (bag w args) (sessionStorage w !! "abv_admin_api_key")).
  split; [by apply request_sends|].
  destruct (COMMAND_MAPPING_shape cmd m Hm) as (_ & Hq & Hh & _).
  generalize (sessionStorage w !! "abv_admin_api_key"). intros k.
  assert (Uq : forall o, has_char "?" (substituted_url (url m) o) = false).
  { intros o. apply substituted_lacks; [apply encodeURIComponent_safe|done]. }
  assert (Uh : forall o, has_char "#" (substituted_url (url m) o) = false).
  { intros o. apply substituted_lacks; [apply encodeURIComponent_safe|done]. }
  split; [|split].
  - destruct (decide (method m = GET \/ method m = DELETE)) as [Hv|Hv].
    + destruct (bag w args) as [o|].
      * rewrite (prepared_query m o k Hv). cbn zeta.
        destruct (spec_query_params o _) as [|p ps]; [apply Uh|].
        rewrite !has_char_app, Uh. simpl.
        by destruct (params_toString_safe (p :: ps)) as (_ & -> & _).
      * rewrite prepared_plain by auto. apply Uh.
    + rewrite prepared_plain; [apply Uh|].
      destruct (method m); [exfalso; apply Hv; by left|by left
                           |exfalso; apply Hv; by right|by right; left].
  - intros Hv o ->. rewrite (prepared_query m o k Hv). cbn zeta.
    destruct (spec_query_params o _) as [|p ps]; [by rewrite query_of_plain|].
    by rewrite query_of_append.
  - intros Hcase. rewrite prepared_plain; [apply Uq|].
    destruct Hcase as [?|[?|?]]; auto.
Qed.

(** X7. Path substitution and the query agree when no key holds a slash (lines
    103 to 137). In browser mode, for a GET or DELETE route of the table and
    a bag whose keys are distinct and hold no slash, the value substituted
    for a consumed key still occurs in the substituted URL, so the query
    loop skips the key: no key consumed by path substitution is among the
    query parameters of the request. *)
Theorem consumed_keys_skipped (e : env) cmd args (w : world) m o :
  isTauri e = false -> COMMAND_MAPPING !! cmd = Some m ->
  method m = GET \/ method m = DELETE ->
  bag w args = Some o ->
  NoDup (Object_keys o) ->
  Forall (fun key => has_char "/" key = false) (Object_keys o) ->
  let u := substituted_url (url m) (Some o) in
  let ps := spec_query_params o u in
  exists r, sends e cmd args w r
    /\ req_url r = match ps with [] => u | _ :: _ => u +:+ "?" +:+ params_toString ps end
    /\ forall k, k ∈ consumed_keys (url m) o ->
         includes u (encodeURIComponent (ToString (get o k))) = true /\ k ∉ ps.*1.
Proof.
  intros Ht Hm Hverb Hbag Hnd Hkeys u ps.
  exists (prepared m (bag w args) (sessionStorage w !! "abv_admin_api_key")).
  split; [by apply request_sends|]. rewrite Hbag.
  split; [by apply prepared_query|].
  destruct (COMMAND_MAPPING_shape cmd m Hm) as (_ & _ & _ & Hone).
  assert (Hseg : Forall (fun seg => count_char ":" seg <= 1) (segments (url m))).
  { unfold one_colon_per_segment in Hone. rewrite forallb_forall in Hone.
    apply Forall_forall. intros seg Hin%list_elem_of_In. apply Hone in Hin.
    by apply Nat.leb_le. }
  destruct (run_substitution_segments o (Object_keys o) (segments (url m)) Hkeys Hseg)
    as (segs' & E & _ & _ & _ & C).
  rewrite join_segments in E, C.
  intros k Hk.
  assert (Hinc : includes u (encodeURIComponent (ToString (get o k))) = true).
  { subst u. unfold substituted_url. rewrite E.
    specialize (C k Hk). apply Exists_exists in C as (seg & Hin & _ & Hv).
    by apply (includes_join_elem segs' seg). }
  split; [done|].
  assert (Hkey : k ∈ Object_keys o) by (by apply consumed_keys_are_keys in Hk).
  unfold Object_keys in Hkey. apply list_elem_of_fmap in Hkey as ([k' v] & -> & Hin).
  cbn [fst] in *. rewrite (get_of_entry o k' v Hnd Hin) in Hinc.
  by apply (consumed_key_not_in_query o u k' v).
Qed.

(** X8. Routes without placeholder (lines 98 to 144). In browser mode, when the
    URL template of a command of the route table has no colon, no key of the
    bag is consumed: the path of the URL is the template as it is, the
    working copy is equal to the bag, and a POST or PATCH route sends the
    whole bag as its body, or the [request] value of the bag when that is
    not undefined. *)
Theorem route_without_placeholder (e : env) cmd args (w : world) m o :
  isTauri e = false -> COMMAND_MAPPING !! cmd = Some m ->
  has_char ":" (url m) = false ->
  bag w args = Some o ->
  consumed_keys (url m) o = [] /\ body_use_copy (url m) o = o
  /\ exists r, sends e cmd args w r
       /\ substituted_url (url m) (Some o) = url m
       /\ (method m = POST \/ method m = PATCH ->
           req_url r = url m
           /\ req_body r = JSON_stringify (if is_defined (get o "request")
                                           then get o "request" else VObj o)).
Proof.
  intros Ht Hm Hc Hbag.
  pose proof (run_substitution_no_colon o (Object_keys o) (url m) Hc) as Hrun.
  assert (Hcons : consumed_keys (url m) o = []) by (unfold consumed_keys; by rewrite Hrun).
  assert (Hcopy : body_use_copy (url m) o = o).
  { unfold body_use_copy. rewrite Hcons. apply filter_not_in_nil. }
  assert (Hu : substituted_url (url m) (Some o) = url m)
    by (unfold substituted_url; by rewrite Hrun).
  split; [done|]. split; [done|].
  exists (prepared m (bag w args) (sessionStorage w !! "abv_admin_api_key")).
  split; [by apply request_sends|]. split; [done|].
  intros Hverb. rewrite Hbag. rewrite prepared_plain by tauto. split; [done|].
  unfold prepared.
  assert (bool_decide (method m = GET) || bool_decide (method m = DELETE) = false) as ->.
  { destruct Hverb as [-> | ->]; done. }
  assert (bool_decide (method m = POST) || bool_decide (method m = PATCH) = true) as ->.
  { destruct Hverb as [-> | ->]; done. }
  cbn [req_body]. by rewrite Hcopy.
Qed.

(** X9. What no dispatch does (the whole of [request]). In either mode and on
    every path, a dispatch leaves the session storage as it is, calls
    [fetch] at most once (there is no retry), not at all in native mode, and
    adds to the events at most one session-expired event. *)
Theorem dispatch_frame (e : env) cmd args (w : world) :
  let w' := (request e cmd args w).2 in
  sessionStorage w' = sessionStorage w
  /\ (fetched w' = fetched w \/ exists r, fetched w' = fetched w ++ [r])
  /\ (isTauri e = true -> fetched w' = fetched w /\ events w' = events w)
  /\ (events w' = events w \/ events w' = events w ++ [unauthorized]).
Proof.
  cbn zeta. destruct (request_step e cmd args w) as (S & F & Hstep).
  split; [done|]. split; [done|]. split.
  - intros Ht. by destruct (request_native_path e cmd args w Ht) as (_ & _ & _ & _ & -> & -> & _).
  - destruct Hstep as [[-> _]|(-> & _)]; [by left|by right].
Qed.



End Extras.


(** ** What a dispatch depends on, and what its URL tells *)

Section Dependence.

Context {num : Type} `{JSNumber num}.

Abbreviation value := (value num).
Abbreviation world := (world num).
Abbreviation env := (env num).

Ltac unfold_send :=
  unfold send, try_catch, mbind, M_bind, bind, do_fetch, get_lastAuthErrorTime,
    set_lastAuthErrorTime, dispatchEvent, parse, get_error, console_log, throw,
    mret, M_ret, ret;
  cbn [fst snd heap sessionStorage lastAuthErrorTime events console fetched].

(** The outcome of [send] is the same in every world. *)
Lemma send_outcome (e : env) cmd r (w1 w2 : world) :
  (send e cmd r w1).1 = (send e cmd r w2).1.
Proof.
  unfold_send.
  destruct (fetch e r) as [?|resp]; [done|]. simpl.
  destruct (ok resp); simpl.
  - destruct (status resp =? 204)%N; [done|]. simpl.
    destruct (nonempty (body_text resp)); [|done]. simpl.
    by destruct (JSON_parse e (body_text resp)).
  - destruct (negb (isTauri e) && (status resp =? 401)%N); simpl.
    + destruct (_ >? _)%Z, (_ >? _)%Z; simpl;
        by destruct (JSON_parse e (body_text resp)) as [[]|].
    + by destruct (JSON_parse e (body_text resp)) as [[]|].
Qed.

(** In browser mode two dispatches of one command with equal bags and equal
    access keys either both go on with [send], on the same request, or both
    stop before the network with the same rejection. *)
Lemma request_same_path (e : env) cmd args1 args2 (w1 w2 : world) :
  isTauri e = false ->
  bag w1 args1 = bag w2 args2 ->
  sessionStorage w1 !! "abv_admin_api_key" = sessionStorage w2 !! "abv_admin_api_key" ->
  (exists r w01 w02, request e cmd args1 w1 = send e cmd r w01
      /\ request e cmd args2 w2 = send e cmd r w02
      /\ fetched w01 = fetched w1 /\ fetched w02 = fetched w2)
  \/ (exists t, (request e cmd args1 w1).1 = Throw t /\ (request e cmd args2 w2).1 = Throw t
        /\ fetched (request e cmd args1 w1).2 = fetched w1
        /\ fetched (request e cmd args2 w2).2 = fetched w2).
Proof.
  intros Ht Hbag Hkey. destruct (COMMAND_MAPPING_get cmd) as [m| |] eqn:Hget.
  - assert (Hm : COMMAND_MAPPING !! cmd = Some m).
    { unfold COMMAND_MAPPING_get in Hget.
      destruct (COMMAND_MAPPING !! cmd); [congruence|]. by destruct (bool_decide _). }
    left. exists (prepared m (bag w1 args1) (sessionStorage w1 !! "abv_admin_api_key")),
      (after_copy m args1 w1), (after_copy m args2 w2).
    split; [by apply request_browser|].
    split; [rewrite Hbag, Hkey; by apply request_browser|].
    by rewrite !after_copy_fetched.
  - destruct (request_inherited e cmd args1 w1 Ht Hget) as (w01 & _ & _ & F1 & _ & R1).
    destruct (request_inherited e cmd args2 w2 Ht Hget) as (w02 & _ & _ & F2 & _ & R2).
    rewrite Hbag, Hkey in R1.
    destruct (bag w2 args2) as [[|kv o]|].
    + left. eexists _, w01, w02. done.
    + right. exists ThrowTypeError. by rewrite R1, R2.
    + left. eexists _, w01, w02. done.
  - right.
    destruct (request_unmapped e cmd args1 w1 Ht Hget) as (R1 & F1 & _).
    destruct (request_unmapped e cmd args2 w2 Ht Hget) as (R2 & F2 & _).
    eexists. done.
Qed.

(** X11. What a dispatch depends on (the whole of [request]). With one host,
    two dispatches of the same command whose bags are equal and that read
    the same access key end alike, with the same value or the same
    rejection, and send the same request or none: neither the events
    dispatched before, nor the time of the last session-expired event, nor
    the console, nor the rest of the heap and of the session storage has a
    part in it. *)
Theorem outcome_ignores_history (e : env) cmd args1 args2 (w1 w2 : world) :
  bag w1 args1 = bag w2 args2 ->
  sessionStorage w1 !! "abv_admin_api_key" = sessionStorage w2 !! "abv_admin_api_key" ->
  (request e cmd args1 w1).1 = (request e cmd args2 w2).1
  /\ (forall r, sends e cmd args1 w1 r <-> sends e cmd args2 w2 r)
  /\ (fetched (request e cmd args1 w1).2 = fetched w1
      <-> fetched (request e cmd args2 w2).2 = fetched w2).
Proof.
  intros Hbag Hkey.
  assert (Hgrow : forall (l : list http_request) r, l ++ [r] <> l).
  { intros l r Heq. apply (f_equal length) in Heq. rewrite length_app in Heq. simpl in Heq. lia. }
  destruct (isTauri e) eqn:Ht.
  { destruct (request_native_path e cmd args1 w1 Ht) as (R1 & _ & _ & _ & _ & F1 & _).
    destruct (request_native_path e cmd args2 w2 Ht) as (R2 & _ & _ & _ & _ & F2 & _).
    split; [by rewrite R1, R2, Hbag|]. unfold sends. rewrite F1, F2. split; [|done].
    intros r. split; intros Hs; symmetry in Hs; by apply Hgrow in Hs. }
  destruct (request_same_path e cmd args1 args2 w1 w2 Ht Hbag Hkey)
    as [(r & w01 & w02 & R1 & R2 & F1 & F2)|(t & R1 & R2 & F1 & F2)].
  - unfold sends. rewrite R1, R2. split; [apply send_outcome|].
    rewrite !send_fetched, F1, F2. split.
    + intros r'. split; intros Hs; apply app_inv_head in Hs as [= ->]; done.
    + split; intros Hs; by apply Hgrow in Hs.
  - split; [by rewrite R1, R2|]. unfold sends. rewrite F1, F2. split; [|done].
    intros r. split; intros Hs; symmetry in Hs; by apply Hgrow in Hs.
Qed.

(** *** The URL tells the values apart *)

Lemma read_unit_encode c rest : read_unit (encode_unit c +:+ rest) = Some (c, rest).
Proof. destruct c as [[] [] [] [] [] [] [] []]; vm_compute; reflexivity. Qed.

Lemma read_unit_nil : read_unit EmptyString = None.
Proof. reflexivity. Qed.

(** [encodeURIComponent] loses nothing: two strings with the same encoding
    are equal. *)
Lemma encodeURIComponent_inj s1 s2 :
  encodeURIComponent s1 = encodeURIComponent s2 -> s1 = s2.
Proof.
  revert s2. induction s1 as [|c1 s1 IH]; intros [|c2 s2] Heq; cbn [encodeURIComponent] in Heq.
  - done.
  - apply (f_equal read_unit) in Heq. by rewrite read_unit_encode in Heq.
  - apply (f_equal read_unit) in Heq. by rewrite read_unit_encode in Heq.
  - apply (f_equal read_unit) in Heq. rewrite !read_unit_encode in Heq.
    injection Heq as -> Heq. f_equal. by apply IH.
Qed.

Lemma length_append a b : String.length (a +:+ b) = String.length a + String.length b.
Proof. induction a as [|c a IH]; [done|]. rewrite append_cons. simpl. by rewrite IH. Qed.

Lemma append_inv_tail a b t : a +:+ t = b +:+ t -> a = b.
Proof.
  revert b. induction a as [|c a IH]; intros [|d b] Heq.
  - done.
  - apply (f_equal String.length) in Heq. rewrite !length_append in Heq. simpl in Heq. lia.
  - apply (f_equal String.length) in Heq. rewrite !length_append in Heq. simpl in Heq. lia.
  - rewrite !append_cons in Heq. injection Heq as -> Heq. f_equal. by apply IH.
Qed.

(** The replacement can be read off the result of a replacement that took
    place. *)
Lemma replace_literal_inj s p r1 r2 :
  includes s p = true -> replace_literal s p r1 = replace_literal s p r2 -> r1 = r2.
Proof.
  induction s as [|d s IH]; cbn [includes replace_literal].
  - destruct (startsWith EmptyString p); [|done]. intros _. apply append_inv_tail.
  - destruct (startsWith (String d s) p).
    + intros _. apply append_inv_tail.
    + intros Hinc [= Heq]. by apply IH.
Qed.

(** The URL sent for a bag with a single key that the template uses. *)
Lemma prepared_single m k (v : value) apiKey :
  includes (url m) (":" +:+ k) = true ->
  req_url (prepared m (Some [(k, v)]) apiKey) =
    replace_literal (url m) (":" +:+ k) (encodeURIComponent (ToString v)).
Proof.
  intros Hinc.
  assert (Hu : substituted_url (url m) (Some [(k, v)]) =
               replace_literal (url m) (":" +:+ k) (encodeURIComponent (ToString v))).
  { unfold substituted_url, Object_keys. rewrite fmap_cons, fmap_nil. cbn [fst].
    rewrite run_substitution_cons, Hinc. cbn zeta. cbn [fst run_substitution get].
    rewrite String.eqb_refl. apply replace_is_literal, encodeURIComponent_no_dollar. }
  destruct (decide (method m = GET \/ method m = DELETE)) as [Hv|Hv].
  - rewrite (prepared_query m [(k, v)] apiKey Hv). cbn zeta.
    assert (spec_query_params [(k, v)] (substituted_url (url m) (Some [(k, v)])) = []) as ->;
      [|done].
    unfold spec_query_params.
    rewrite (filter_cons (fun kv : string * value =>
               neither_undefined_nor_null kv.2 = true
               ∧ includes (substituted_url (url m) (Some [(k, v)]))
                   (encodeURIComponent (ToString kv.2)) = false)).
    rewrite decide_False; [done|]. cbn [snd]. intros [_ Hno].
    rewrite Hu, includes_replace in Hno; done.
  - rewrite prepared_plain; [done|].
    destruct (method m); [exfalso; apply Hv; by left|by left
                         |exfalso; apply Hv; by right|by right; left].
Qed.

(** X12. The URL tells the values apart (lines 103 to 139, with
    [encodeURIComponent]). In browser mode, take a route of the table whose
    template uses the placeholder of a key, and two bags that hold this key
    alone: when the values of the key differ as strings, the two dispatches
    send different URLs. Percent-encoding loses nothing, so two resources
    are never addressed by one URL. *)
Theorem distinct_values_distinct_urls (e : env) cmd args1 args2 (w1 w2 : world) m k v1 v2 r1 r2 :
  isTauri e = false -> COMMAND_MAPPING !! cmd = Some m ->
  includes (url m) (":" +:+ k) = true ->
  bag w1 args1 = Some [(k, v1)] -> bag w2 args2 = Some [(k, v2)] ->
  ToString v1 <> ToString v2 ->
  sends e cmd args1 w1 r1 -> sends e cmd args2 w2 r2 ->
  req_url r1 <> req_url r2.
Proof.
  intros Ht Hm Hinc Hb1 Hb2 Hdiff Hs1 Hs2 Heq. apply Hdiff.
  pose proof (request_sends e cmd args1 w1 m Ht Hm) as Hp1.
  pose proof (request_sends e cmd args2 w2 m Ht Hm) as Hp2.
  unfold sends in *. rewrite Hs1 in Hp1. rewrite Hs2 in Hp2.
  apply app_inv_head in Hp1 as [= ->]. apply app_inv_head in Hp2 as [= ->].
  rewrite Hb1, Hb2, !prepared_single in Heq by done.
  by apply encodeURIComponent_inj, (replace_literal_inj (url m) (":" +:+ k)).
Qed.

End Dependence.


(** ** The further properties on sample dispatches *)

Section MoreSamples.

Import Fixtures Hosts.

Lemma native_dispatch_witness :
  (request (desktop (Rejected (ThrowValue (VStr "denied")))) "format_disk" (Some 1%positive)
     (start switch_bag None)).1 = Throw (ThrowValue (VStr "denied"))
  /\ fetched (request (desktop (Rejected (ThrowValue (VStr "denied")))) "format_disk"
                (Some 1%positive) (start switch_bag None)).2 = []
  /\ console (request (desktop (Rejected (ThrowValue (VStr "denied")))) "format_disk"
                (Some 1%positive) (start switch_bag None)).2 =
       [invoke_error_entry "format_disk" (ThrowValue (VStr "denied"))].
Proof.
  destruct (native_dispatch (desktop (Rejected (ThrowValue (VStr "denied")))) "format_disk"
              (Some 1%positive) (start switch_bag None))
    as (R & _ & _ & _ & F & C); [reflexivity|].
  split; [exact R|]. split; [exact F|exact C].
Defined.

Lemma rejection_logged_witness :
  (request (offline ThrowTypeError) "load_config" None (start [] None)).1 = Throw ThrowTypeError
  /\ events (request (offline ThrowTypeError) "load_config" None (start [] None)).2 = [].
Proof.
  destruct (rejection_logged (offline ThrowTypeError) "load_config" None (start [] None)
              load_config_request) as [Hf _]; [reflexivity|vm_compute; reflexivity|].
  apply Hf. reflexivity.
Defined.

Lemma null_payload_type_error_witness :
  (request (browser 0 500 "null") "load_config" None (start [] None)).1 = Throw ThrowTypeError.
Proof.
  destruct (null_payload_type_error (browser 0 500 "null") "load_config" None (start [] None)
              load_config_request {| status := 500; body_text := "null" |}) as [Hr _];
    [reflexivity|split; vm_compute; reflexivity|reflexivity|reflexivity|exact Hr].
Defined.

Lemma unauthorized_rate_witness :
  exists n,
    events (dispatch_all
              [(browser 1700000000000 401 EmptyString, "load_config", None);
               (browser 1700000001000 401 EmptyString, "list_accounts", None);
               (browser 1700000002100 401 EmptyString, "load_config", None)]
              (start [] None)) = [] ++ replicate n unauthorized
    /\ (1 <= n -> (2000 * (Z.of_nat n - 1) <= 1700000002100 - 1700000000000)%Z).
Proof.
  apply (unauthorized_rate
           [(browser 1700000000000 401 EmptyString, "load_config", None);
            (browser 1700000001000 401 EmptyString, "list_accounts", None);
            (browser 1700000002100 401 EmptyString, "load_config", None)]
           (start [] None) 1700000000000 1700000002100).
  constructor; [simpl; lia|]. constructor; [simpl; lia|].
  constructor; [simpl; lia|]. constructor.
Defined.

Lemma static_prefix_kept_witness :
  exists r, sends (browser 0 200 EmptyString) "fetch_account_quota" (Some 1%positive)
              (start quota_bag None) r
    /\ startsWith (req_url r) "/api/accounts/" = true.
Proof.
  destruct (static_prefix_kept (browser 0 200 EmptyString) "fetch_account_quota"
              (Some 1%positive) (start quota_bag None)
              {| url := "/api/accounts/:accountId/quota"; method := GET |})
    as (r & Hs & Hp & _); [reflexivity|vm_compute; reflexivity|].
  exists r. split; [exact Hs|exact Hp].
Defined.

Lemma query_is_delimited_witness :
  exists r, sends (browser 0 200 EmptyString) "fetch_account_quota" (Some 1%positive)
              (start quota_bag None) r
    /\ has_char "#" (req_url r) = false
    /\ query_of (req_url r) = "extra=x".
Proof.
  destruct (query_is_delimited (browser 0 200 EmptyString) "fetch_account_quota"
              (Some 1%positive) (start quota_bag None)
              {| url := "/api/accounts/:accountId/quota"; method := GET |})
    as (r & Hs & Hh & Hq & _); [reflexivity|vm_compute; reflexivity|].
  exists r. split; [exact Hs|]. split; [exact Hh|].
  rewrite (Hq (or_introl eq_refl) quota_bag); [vm_compute; reflexivity|vm_compute; reflexivity].
Defined.

Lemma consumed_keys_skipped_witness :
  exists r, sends (browser 0 204 EmptyString) "delete_device_version" (Some 1%positive)
              (start device_bag None) r
    /\ req_url r = "/api/accounts/a1/device-versions/v2".
Proof.
  pose proof (consumed_keys_skipped (browser 0 204 EmptyString) "delete_device_version"
                (Some 1%positive) (start device_bag None)
                {| url := "/api/accounts/:accountId/device-versions/:versionId";
                   method := DELETE |} device_bag) as Hskip.
  cbn zeta in Hskip.
  destruct Hskip as (r & Hs & Hu & _);
    [reflexivity|vm_compute; reflexivity|right; reflexivity|vm_compute; reflexivity
    |apply (bool_decide_unpack _); vm_compute; exact I
    |constructor; [reflexivity|]; constructor; [reflexivity|]; constructor|].
  exists r. split; [exact Hs|]. rewrite Hu. vm_compute. reflexivity.
Defined.

Lemma route_without_placeholder_witness :
  exists r, sends (browser 0 200 EmptyString) "switch_account" (Some 1%positive)
              (start switch_bag None) r
    /\ req_url r = "/api/accounts/switch"
    /\ req_body r = Some ("{" +:+ quoted "accountId" +:+ ":" +:+ quoted "abc123" +:+ "}").
Proof.
  destruct (route_without_placeholder (browser 0 200 EmptyString) "switch_account"
              (Some 1%positive) (start switch_bag None)
              {| url := "/api/accounts/switch"; method := POST |} switch_bag)
    as (_ & _ & r & Hs & _ & Hpost);
    [reflexivity|vm_compute; reflexivity|reflexivity|vm_compute; reflexivity|].
  exists r. split; [exact Hs|].
  destruct Hpost as [Hu Hb]; [left; reflexivity|].
  split; [exact Hu|]. rewrite Hb. vm_compute. reflexivity.
Defined.


Lemma outcome_ignores_history_witness :
  (request (browser 1700000000000 401 EmptyString) "load_config" None (start [] None)).1 =
  (request (browser 1700000000000 401 EmptyString) "load_config" None
     (request (browser 1700000000000 401 EmptyString) "load_config" None (start [] None)).2).1.
Proof.
  destruct (outcome_ignores_history (browser 1700000000000 401 EmptyString) "load_config"
              None None (start [] None)
              (request (browser 1700000000000 401 EmptyString) "load_config" None
                 (start [] None)).2) as [Hr _];
    [reflexivity|vm_compute; reflexivity|exact Hr].
Defined.

Lemma distinct_values_distinct_urls_witness :
  exists r1 r2,
    sends (browser 0 204 EmptyString) "delete_account" (Some 1%positive)
      (start [("accountId", VStr "a/b")] None) r1
    /\ sends (browser 0 204 EmptyString) "delete_account" (Some 1%positive)
         (start [("accountId", VStr "a%2Fb")] None) r2
    /\ req_url r1 <> req_url r2.
Proof.
  exists {| req_url := "/api/accounts/a%2Fb"; req_method := DELETE;
            req_headers := [content_type]; req_body := None |},
         {| req_url := "/api/accounts/a%252Fb"; req_method := DELETE;
            req_headers := [content_type]; req_body := None |}.
  assert (Hs1 : sends (browser 0 204 EmptyString) "delete_account" (Some 1%positive)
                  (start [("accountId", VStr "a/b")] None)
                  {| req_url := "/api/accounts/a%2Fb"; req_method := DELETE;
                     req_headers := [content_type]; req_body := None |})
    by (vm_compute; reflexivity).
  assert (Hs2 : sends (browser 0 204 EmptyString) "delete_account" (Some 1%positive)
                  (start [("accountId", VStr "a%2Fb")] None)
                  {| req_url := "/api/accounts/a%252Fb"; req_method := DELETE;
                     req_headers := [content_type]; req_body := None |})
    by (vm_compute; reflexivity).
  split; [exact Hs1|]. split; [exact Hs2|].
  apply (distinct_values_distinct_urls (browser 0 204 EmptyString) "delete_account"
           (Some 1%positive) (Some 1%positive)
           (start [("accountId", VStr "a/b")] None)
           (start [("accountId", VStr "a%2Fb")] None)
           {| url := "/api/accounts/:accountId"; method := DELETE |}
           "accountId" (VStr "a/b") (VStr "a%2Fb"));
    [reflexivity|vm_compute; reflexivity|reflexivity|vm_compute; reflexivity
    |vm_compute; reflexivity|vm_compute; discriminate|exact Hs1|exact Hs2].
Defined.

Lemma resolved_means_ok_response_witness :
  exists r resp, receives (browser 0 200 "pong") "load_config" None (start [] None) r resp
    /\ ok resp = true.
Proof.
  destruct (resolved_means_ok_response (browser 0 200 "pong") "load_config" None
              (start [] None) (VStr "pong"))
    as (r & resp & Hr & Hok & _); [reflexivity|vm_compute; reflexivity|].
  exists r, resp. split; [exact Hr|exact Hok].
Defined.

Lemma event_means_401_witness :
  exists r resp, receives (browser 1700000000000 401 EmptyString) "load_config" None
                   (start [] None) r resp
    /\ status resp = 401%N.
Proof.
  destruct (event_means_401 (browser 1700000000000 401 EmptyString) "load_config" None
              (start [] None))
    as (_ & (r & resp & t & Hr & Hs & _) & _); [vm_compute; discriminate|].
  exists r, resp. split; [exact Hr|exact Hs].
Defined.

End MoreSamples.
